(** * Link-button pairing window and registration gate of the diyHue
      enhanced-security add-on

    Shallow embedding of
      - services/security.py        (class [EnhancedSecurity])
      - flaskUI/restful_enhanced.py ([enhanced_auth_wrapper],
                                     [patch_bridge_linkbutton])

    Modelling conventions.
      - A reading of [time.time()] is an argument [now : Q] of the
        operation that performs it: timestamps are exact rationals, and
        the subtraction [time.time() - self.button_press_time] is exact.
      - [threading.Timer] objects live in a heap [threads] indexed by
        creation order; [_cleanup_thread] holds an index into it.  A timer
        is the pair of its interval and start time together with the
        [finished] event of the library class: [cancel()] sets it, and the
        timer thread calls the function only if it finds it unset.
      - Every method call and every timer callback is one atomic step;
        interleavings are lists of such steps.  A timer's interval is
        measured on the clock that [time.time()] reads.
      - Logging is dropped. *)

From Stdlib Require Import QArith Qround Lqa ZArith Lia.
From stdpp Require Import gmap strings list pretty.

Local Open Scope Z_scope.

(** ** Python arithmetic on timestamps *)

(** [a > b] on numbers. *)
Definition Qgtb (a b : Q) : bool := negb (Qle_bool a b).

(** [max(0, x)]: the builtin keeps its first argument unless a later one
    is strictly greater. *)
Definition py_max0 (x : Q) : Q := if Qgtb x 0 then x else 0%Q.

(** [int(x)] on a float: truncation towards zero. *)
Definition py_int (x : Q) : Z := Z.quot (Qnum x) (Z.pos (Qden x)).

(** ** services/security.py *)

Record leds := { led1 : bool; led2 : bool; led3 : bool }.

Definition leds_off : leds := {| led1 := false; led2 := false; led3 := false |}.
Definition leds_on : leds := {| led1 := true; led2 := true; led3 := true |}.

(** A [threading.Timer(interval, function)] that has been started. *)
Record timer := {
  interval : Z;
  started : Q;
  finished : bool
}.

Definition timer_cancel (tm : timer) : timer :=
  {| interval := interval tm; started := started tm; finished := true |}.

(** The singleton [enhanced_security], with the heap of the timers it
    has created. *)
Record EnhancedSecurity := {
  button_pressed : bool;
  button_press_time : Q;
  button_timeout : Z;
  led_indicator_enabled : bool;
  security_enabled : bool;
  led_state : leds;
  _cleanup_thread : option nat;
  threads : list timer
}.

(** [__init__]: the three environment variables after parsing, [None]
    when unset. *)
Definition init (BUTTON_TIMEOUT : option Z)
    (LED_INDICATOR BUTTON_SECURITY : option bool) : EnhancedSecurity :=
  {| button_pressed := false;
     button_press_time := 0%Q;
     button_timeout := default 30 BUTTON_TIMEOUT;
     led_indicator_enabled := default true LED_INDICATOR;
     security_enabled := default true BUTTON_SECURITY;
     led_state := leds_off;
     _cleanup_thread := None;
     threads := [] |}.

(** The three assignments of [_button_timeout]. *)
Definition _button_timeout (s : EnhancedSecurity) : EnhancedSecurity :=
  {| button_pressed := false;
     button_press_time := 0%Q;
     button_timeout := button_timeout s;
     led_indicator_enabled := led_indicator_enabled s;
     security_enabled := security_enabled s;
     led_state := leds_off;
     _cleanup_thread := _cleanup_thread s;
     threads := threads s |}.

(** [if self._cleanup_thread: self._cleanup_thread.cancel()] *)
Definition cancel_cleanup (s : EnhancedSecurity) : list timer :=
  match _cleanup_thread s with
  | Some i => alter timer_cancel i (threads s)
  | None => threads s
  end.

(** The dict returned by [press_button]; the early return has no
    ['time_remaining'] key. *)
Record press_result := {
  pr_success : bool;
  pr_timeout : Z;
  pr_leds : leds;
  pr_time_remaining : option Z;
  pr_message : string
}.

(** The reply and the state are those of the call taken on its own; the
    callback of the timer it starts is a step of its own, [timer_run].
    With a timeout of 0 or less under [BUTTON_SECURITY=true] that timer
    is due at once and the code may run its callback before the call
    returns; statements about the indicator in the reply and about the
    state at return are therefore made for positive timeouts or
    [BUTTON_SECURITY=false]. *)
Definition press_button (now : Q) (s : EnhancedSecurity)
    : press_result * EnhancedSecurity :=
  if negb (security_enabled s) then
    ({| pr_success := true;
        pr_timeout := button_timeout s;
        pr_leds := led_state s;
        pr_time_remaining := None;
        pr_message := "Link button activated" |},
     {| button_pressed := true;
        button_press_time := now;
        button_timeout := button_timeout s;
        led_indicator_enabled := led_indicator_enabled s;
        security_enabled := security_enabled s;
        led_state := led_state s;
        _cleanup_thread := _cleanup_thread s;
        threads := threads s |})
  else
    let ths := cancel_cleanup s in
    ({| pr_success := true;
        pr_timeout := button_timeout s;
        pr_leds := leds_on;
        pr_time_remaining := Some (button_timeout s);
        pr_message :=
          "Link button activated. All 3 LEDs blinking. Complete pairing within "
          +:+ pretty (button_timeout s) +:+ " seconds." |},
     {| button_pressed := true;
        button_press_time := now;
        button_timeout := button_timeout s;
        led_indicator_enabled := led_indicator_enabled s;
        security_enabled := security_enabled s;
        led_state := leds_on;
        _cleanup_thread := Some (length ths);
        threads := ths ++ [ {| interval := button_timeout s;
                               started := now;
                               finished := false |} ] |}).

Definition is_button_pressed (now : Q) (s : EnhancedSecurity)
    : bool * EnhancedSecurity :=
  if negb (button_pressed s) then (false, s)
  else
    let elapsed := (now - button_press_time s)%Q in
    if Qgtb elapsed (inject_Z (button_timeout s)) then (false, _button_timeout s)
    else (true, s).

(** The dict returned by [get_status]. *)
Record status := {
  st_button_pressed : bool;
  st_leds : leds;
  st_time_remaining : Z;
  st_message : string
}.

Definition get_status (now : Q) (s : EnhancedSecurity)
    : status * EnhancedSecurity :=
  if negb (button_pressed s) then
    ({| st_button_pressed := false;
        st_leds := leds_off;
        st_time_remaining := 0;
        st_message := "Link button not pressed" |}, s)
  else
    let elapsed := (now - button_press_time s)%Q in
    let remaining := py_max0 (inject_Z (button_timeout s) - elapsed)%Q in
    if Qeq_bool remaining 0 then
      ({| st_button_pressed := false;
          st_leds := leds_off;
          st_time_remaining := 0;
          st_message := "Link button timeout expired" |}, _button_timeout s)
    else
      ({| st_button_pressed := true;
          st_leds := led_state s;
          st_time_remaining := py_int remaining;
          st_message := "Link button active. " +:+ pretty (py_int remaining)
                        +:+ " seconds remaining." |}, s).

Definition reset (s : EnhancedSecurity) : EnhancedSecurity :=
  let ths := cancel_cleanup s in
  _button_timeout
    {| button_pressed := button_pressed s;
       button_press_time := button_press_time s;
       button_timeout := button_timeout s;
       led_indicator_enabled := led_indicator_enabled s;
       security_enabled := security_enabled s;
       led_state := led_state s;
       _cleanup_thread := _cleanup_thread s;
       threads := ths |}.

(** The thread of timer [i], observed at time [now]: once its interval
    has passed it calls [_button_timeout] unless [finished] is set, and
    sets [finished]. Before that, and on a finished timer, nothing
    happens. *)
Definition timer_due (now : Q) (tm : timer) : bool :=
  Qle_bool (inject_Z (interval tm)) (now - started tm)%Q.

Definition timer_run (i : nat) (now : Q) (s : EnhancedSecurity)
    : EnhancedSecurity :=
  match threads s !! i with
  | Some tm =>
      if negb (finished tm) && timer_due now tm then
        let s' := _button_timeout s in
        {| button_pressed := button_pressed s';
           button_press_time := button_press_time s';
           button_timeout := button_timeout s';
           led_indicator_enabled := led_indicator_enabled s';
           security_enabled := security_enabled s';
           led_state := led_state s';
           _cleanup_thread := _cleanup_thread s';
           threads := alter timer_cancel i (threads s') |}
      else s
  | None => s
  end.

(** ** Interleavings of calls and timer callbacks *)

Inductive event :=
  | Press (now : Q)
  | IsPressed (now : Q)
  | GetStatus (now : Q)
  | Reset
  | TimerRun (i : nat) (now : Q).

Definition step (s : EnhancedSecurity) (e : event) : EnhancedSecurity :=
  match e with
  | Press now => snd (press_button now s)
  | IsPressed now => snd (is_button_pressed now s)
  | GetStatus now => snd (get_status now s)
  | Reset => reset s
  | TimerRun i now => timer_run i now s
  end.

Definition run (tr : list event) (s : EnhancedSecurity) : EnhancedSecurity :=
  fold_left step tr s.

Definition is_press (e : event) : bool :=
  match e with Press _ => true | _ => false end.

(** The time of the latest [Press] of a trace. *)
Fixpoint last_press (tr : list event) (acc : option Q) : option Q :=
  match tr with
  | [] => acc
  | Press now :: tr' => last_press tr' (Some now)
  | _ :: tr' => last_press tr' acc
  end.

(** ** flaskUI/restful_enhanced.py *)

Record request := {
  devicetype : option string;
  generateclientkey : option bool
}.

Record whitelist_entry := {
  last_use_date : string;
  create_date : string;
  name : string;
  clientkey : option string
}.

(** [bridge_config["linkbutton"]] is a plain dict or, once patched, the
    instance of the local class [EnhancedLinkButton], which has no fields
    of its own and reaches [bridge_config] through its closure. *)
Inductive linkbutton_obj :=
  | LinkButtonDict (d : gmap string Z)
  | EnhancedLinkButton.

(** The two keys of [bridge_config] that the module touches, [None] when
    the key is absent. *)
Record bridge_config := {
  whitelist : option (gmap string whitelist_entry);
  linkbutton : option linkbutton_obj
}.

Inductive response :=
  | error (type : Z) (address description : string)
  | success (username : string) (clientkey : option string).

(** What one call of the wrapper reads from its environment, in program
    order: [time.time()] in [is_button_pressed] and in [get_status],
    [uuid.uuid4()] for the username, [datetime.now()] for "last use date"
    and again for "create date", [uuid.uuid4()] for the client key. *)
Record readings := {
  time_check : Q;
  time_status : Q;
  uuid_username : string;
  now_last_use : string;
  now_create : string;
  uuid_clientkey : string
}.

Inductive exn := KeyError | RecursionError.

Inductive outcome (A : Type) :=
  | Returns (a : A)
  | Raises (e : exn).
Arguments Returns {A} a.
Arguments Raises {A} e.

Definition is_hex (c : Ascii.ascii) : bool :=
  existsb (Ascii.eqb c) (String.list_ascii_of_string "0123456789abcdef").

Definition all_hex (s : string) : bool :=
  forallb is_hex (String.list_ascii_of_string s).

Section Restful.

(** [hashlib.md5(x.encode()).hexdigest()] and
    [hashlib.sha256(x.encode()).hexdigest()] *)
Variable md5_hexdigest : string → string.
Variable sha256_hexdigest : string → string.

(** Whether [from services.security import enhanced_security]
    succeeded. *)
Variable ENHANCED_SECURITY_AVAILABLE : bool.

Definition link_button_not_pressed : response :=
  error 101 EmptyString "link button not pressed".

Definition enhanced_auth_wrapper (rd : readings) (data : request)
    (bridge : bridge_config) (sec : EnhancedSecurity)
    : list response * bridge_config * EnhancedSecurity :=
  let device_type := default "unknown#unknown" (devicetype data) in
  let generate_client_key := default false (generateclientkey data) in
  let '(pressed, sec1) :=
    if ENHANCED_SECURITY_AVAILABLE then is_button_pressed (time_check rd) sec
    else (true, sec) in
  if negb pressed then ([link_button_not_pressed], bridge, sec1)
  else
    let sec2 :=
      if ENHANCED_SECURITY_AVAILABLE then snd (get_status (time_status rd) sec1)
      else sec1 in
    let username := md5_hexdigest (device_type +:+ uuid_username rd) in
    let wl := default ∅ (whitelist bridge) in
    let client_key :=
      if generate_client_key
      then Some (String.substring 0 32 (sha256_hexdigest (uuid_clientkey rd)))
      else None in
    let whitelist_entry :=
      {| last_use_date := now_last_use rd;
         create_date := now_create rd;
         name := device_type;
         clientkey := client_key |} in
    ([success username client_key],
     {| whitelist := Some (<[username := whitelist_entry]> wl);
        linkbutton := linkbutton bridge |},
     sec2).

Definition patch_bridge_linkbutton (bridge : bridge_config) : bridge_config :=
  if negb ENHANCED_SECURITY_AVAILABLE then bridge
  else
    let bridge1 :=
      match linkbutton bridge with
      | None =>
          {| whitelist := whitelist bridge;
             linkbutton := Some (LinkButtonDict {[ "lastpress" := 0 ]}) |}
      | Some _ => bridge
      end in
    {| whitelist := whitelist bridge1;
       linkbutton := Some EnhancedLinkButton |}.

(** [EnhancedLinkButton.__getitem__("lastpress")] *)
Definition lastpress_read (t_check t_int : Q) (sec : EnhancedSecurity)
    : Z * EnhancedSecurity :=
  let '(pressed, sec') := is_button_pressed t_check sec in
  (if pressed then py_int t_int else 0, sec').

(** [EnhancedLinkButton.get(key, default)] *)
Definition enhanced_get (t_check t_int : Q) (key : string) (dflt : Z)
    (sec : EnhancedSecurity) : Z * EnhancedSecurity :=
  if String.eqb key "lastpress" then lastpress_read t_check t_int sec
  else (dflt, sec).

(** [bridge_config["linkbutton"][key]] *)
Definition linkbutton_getitem (t_check t_int : Q) (key : string)
    (bridge : bridge_config) (sec : EnhancedSecurity)
    : outcome Z * EnhancedSecurity :=
  match linkbutton bridge with
  | None => (Raises KeyError, sec)
  | Some (LinkButtonDict d) =>
      (match d !! key with Some v => Returns v | None => Raises KeyError end,
       sec)
  | Some EnhancedLinkButton =>
      if String.eqb key "lastpress" then
        let '(v, sec') := lastpress_read t_check t_int sec in (Returns v, sec')
      else
        (* bridge_config["linkbutton"].get(key, 0), looked up again *)
        match linkbutton bridge with
        | None => (Raises KeyError, sec)
        | Some (LinkButtonDict d) => (Returns (default 0 (d !! key)), sec)
        | Some EnhancedLinkButton =>
            let '(v, sec') := enhanced_get t_check t_int key 0 sec in
            (Returns v, sec')
        end
  end.

(** [bridge_config["linkbutton"][key] = value].  [depth] is the number
    of further [__setitem__] frames the interpreter's recursion limit
    allows; [clock k] is the value of [time.time()] in the [k]-th call
    of [press_button].  Each of these calls is taken to run to its end;
    in the code the innermost one can be cut short by the
    [RecursionError] after its assignments to [button_pressed] and
    [button_press_time], so of the final state only those two fields are
    relied on. *)
Fixpoint linkbutton_setitem (depth : nat) (clock : nat → Q) (k : nat)
    (key : string) (value : Z) (bridge : bridge_config)
    (sec : EnhancedSecurity)
    : outcome unit * bridge_config * EnhancedSecurity :=
  match linkbutton bridge with
  | None => (Raises KeyError, bridge, sec)
  | Some (LinkButtonDict d) =>
      (Returns tt,
       {| whitelist := whitelist bridge;
          linkbutton := Some (LinkButtonDict (<[key := value]> d)) |},
       sec)
  | Some EnhancedLinkButton =>
      match depth with
      | O => (Raises RecursionError, bridge, sec)
      | S depth' =>
          let sec' :=
            if String.eqb key "lastpress"
            then snd (press_button (clock k) sec) else sec in
          (* bridge_config["linkbutton"][key] = value, looked up again *)
          linkbutton_setitem depth' clock (S k) key value bridge sec'
      end
  end.

End Restful.

(** ** Invariants of the state *)

(** A timer that may still fire is the one [_cleanup_thread] refers to,
    and timers exist only under [BUTTON_SECURITY=true]. *)
Definition timers_wf (s : EnhancedSecurity) : Prop :=
  ∀ (i : nat) (tm : timer),
    threads s !! i = Some tm → finished tm = false →
    _cleanup_thread s = Some i ∧ security_enabled s = true.

(** No timer of the heap can fire any more. *)
Definition timers_quiet (s : EnhancedSecurity) : Prop :=
  ∀ (i : nat) (tm : timer), threads s !! i = Some tm → finished tm = true.

(** The indicator is lit exactly when the window is armed under
    [BUTTON_SECURITY=true]. *)
Definition leds_inv (s : EnhancedSecurity) : Prop :=
  led_state s =
  if security_enabled s && button_pressed s then leds_on else leds_off.

(** The state after [_button_timeout]: disarmed, arming time cleared,
    indicator off. *)
Definition cleared (s : EnhancedSecurity) : Prop :=
  button_pressed s = false ∧ button_press_time s = 0%Q ∧ led_state s = leds_off.

(** The window is armed and was armed at [t0]. *)
Definition armed_at (t0 : Q) (s : EnhancedSecurity) : Prop :=
  button_pressed s = true ∧ button_press_time s = t0.

(** A timer callback attempted before [deadline]. *)
Definition timer_before (deadline : Q) (e : event) : Prop :=
  match e with
  | TimerRun _ now => (now < deadline)%Q
  | _ => False
  end.

(** The state with the configuration flag [security_enabled] replaced. *)
Definition with_security_enabled (b : bool) (s : EnhancedSecurity)
    : EnhancedSecurity :=
  {| button_pressed := button_pressed s;
     button_press_time := button_press_time s;
     button_timeout := button_timeout s;
     led_indicator_enabled := led_indicator_enabled s;
     security_enabled := b;
     led_state := led_state s;
     _cleanup_thread := _cleanup_thread s;
     threads := threads s |}.

(** Digest functions with the output format of [hexdigest()], to
    instantiate statements that assume that format. *)
Definition constant_md5_hexdigest (_ : string) : string :=
  "d41d8cd98f00b204e9800998ecf8427e".
Definition constant_sha256_hexdigest (_ : string) : string :=
  "e3b0c44298fc1c149afbf4c8996fb92427ae41e4649b934ca495991b7852b855".

(** The state with the configuration flag [led_indicator_enabled]
    replaced. *)
Definition with_led_indicator (b : bool) (s : EnhancedSecurity)
    : EnhancedSecurity :=
  {| button_pressed := button_pressed s;
     button_press_time := button_press_time s;
     button_timeout := button_timeout s;
     led_indicator_enabled := b;
     security_enabled := security_enabled s;
     led_state := led_state s;
     _cleanup_thread := _cleanup_thread s;
     threads := threads s |}.

(** While the window is armed under [BUTTON_SECURITY=true], the timer
    that [_cleanup_thread] refers to is live and was started with the
    window. *)
Definition timer_matches_window (s : EnhancedSecurity) : Prop :=
  button_pressed s = true → security_enabled s = true →
  ∃ j : nat,
    _cleanup_thread s = Some j ∧
    threads s !! j = Some {| interval := button_timeout s;
                             started := button_press_time s;
                             finished := false |}.

(** ** The handlers of [add_enhanced_routes] *)

(** The JSON body of [handle_linkbutton_press]. *)
Record press_reply := {
  rp_success : bool;
  rp_message : string;
  rp_leds : leds;
  rp_timeout : Z;
  rp_time_remaining : Z
}.

(** The JSON body of [handle_linkbutton_reset]. *)
Record reset_reply := {
  rr_success : bool;
  rr_message : string
}.

(** Each handler returns its body, the HTTP status and the new state of
    [enhanced_security].  [result.get('time_remaining', result['timeout'])]
    falls back on the timeout when the key is absent. *)
Definition handle_linkbutton_press (now : Q) (sec : EnhancedSecurity)
    : press_reply * Z * EnhancedSecurity :=
  let '(result, sec') := press_button now sec in
  ({| rp_success := pr_success result;
      rp_message := pr_message result;
      rp_leds := pr_leds result;
      rp_timeout := pr_timeout result;
      rp_time_remaining :=
        default (pr_timeout result) (pr_time_remaining result) |},
   200, sec').

Definition handle_linkbutton_status (now : Q) (sec : EnhancedSecurity)
    : status * Z * EnhancedSecurity :=
  let '(st, sec') := get_status now sec in (st, 200, sec').

Definition handle_linkbutton_reset (sec : EnhancedSecurity)
    : reset_reply * Z * EnhancedSecurity :=
  ({| rr_success := true; rr_message := "Link button reset" |}, 200, reset sec).

(** A sequence of registration requests served one after the other by
    the wrapper, each with its own readings. *)
Fixpoint serve (md5_hexdigest sha256_hexdigest : string → string)
    (ENHANCED_SECURITY_AVAILABLE : bool)
    (reqs : list (readings * request))
    (bridge : bridge_config) (sec : EnhancedSecurity)
    : list (list response) * bridge_config * EnhancedSecurity :=
  match reqs with
  | [] => ([], bridge, sec)
  | (rd, data) :: rest =>
      let '(resp, bridge1, sec1) :=
        enhanced_auth_wrapper md5_hexdigest sha256_hexdigest
          ENHANCED_SECURITY_AVAILABLE rd data bridge sec in
      let '(resps, bridge2, sec2) :=
        serve md5_hexdigest sha256_hexdigest ENHANCED_SECURITY_AVAILABLE
          rest bridge1 sec1 in
      (resp :: resps, bridge2, sec2)
  end.

(** The reply of the wrapper to a request that passes the gate. *)
Definition minted (md5_hexdigest sha256_hexdigest : string → string)
    (rq : readings * request) : list response :=
  let device_type := default "unknown#unknown" (devicetype (snd rq)) in
  [success
     (md5_hexdigest (device_type +:+ uuid_username (fst rq)))
     (if default false (generateclientkey (snd rq))
      then Some (String.substring 0 32
                   (sha256_hexdigest (uuid_clientkey (fst rq))))
      else None)].

(** ** patch_security.py *)

(** A [str] is represented by its UTF-8 encoding: the line feed and the
    ASCII texts searched for below are then the same bytes in every
    string that contains them. *)
Definition newline : Ascii.ascii := Ascii.ascii_of_nat 10.
Definition dq : string := String (Ascii.ascii_of_nat 34) EmptyString.

(** [s.split('\n')] *)
Fixpoint split_lines (s : string) : list string :=
  match s with
  | EmptyString => [EmptyString]
  | String c s' =>
      if Ascii.eqb c newline then EmptyString :: split_lines s'
      else match split_lines s' with
           | [] => [String c EmptyString]
           | l :: ls => String c l :: ls
           end
  end.

(** ['\n'.join(lines)] *)
Fixpoint join_lines (lines : list string) : string :=
  match lines with
  | [] => EmptyString
  | [l] => l
  | l :: ls => l +:+ String newline (join_lines ls)
  end.

(** [sub in s] *)
Fixpoint contains (sub s : string) : bool :=
  if String.prefix sub s then true
  else match s with
       | EmptyString => false
       | String _ s' => contains sub s'
       end.

(** Whether a text holds a line feed. *)
Definition has_newline (s : string) : bool :=
  existsb (Ascii.eqb newline) (String.list_ascii_of_string s).

(** [lines.insert(i, x)]: an index past the end appends. *)
Definition insert_at (i : nat) (x : string) (lines : list string)
    : list string :=
  take i lines ++ x :: drop i lines.

(** The code points that [str.strip()] removes, in UTF-8: U+0009 to
    U+000D, U+001C to U+0020, U+0085, U+00A0, U+1680, U+2000 to U+200A,
    U+2028, U+2029, U+202F, U+205F, U+3000. *)
Definition whitespace : list (list nat) :=
  [[9]; [10]; [11]; [12]; [13]; [28]; [29]; [30]; [31]; [32];
   [194; 133]; [194; 160]; [225; 154; 128];
   [226; 128; 128]; [226; 128; 129]; [226; 128; 130]; [226; 128; 131];
   [226; 128; 132]; [226; 128; 133]; [226; 128; 134]; [226; 128; 135];
   [226; 128; 136]; [226; 128; 137]; [226; 128; 138];
   [226; 128; 168]; [226; 128; 169]; [226; 128; 175];
   [226; 129; 159]; [227; 128; 128]]%nat.

Fixpoint is_prefix_of (p l : list Ascii.ascii) : bool :=
  match p, l with
  | [], _ => true
  | _ :: _, [] => false
  | a :: p', b :: l' => Ascii.eqb a b && is_prefix_of p' l'
  end.

(** Removal of leading members of [ws]; [fuel] bounds the number of
    removals and [length l] is enough. *)
Fixpoint lstrip_with (fuel : nat) (ws : list (list Ascii.ascii))
    (l : list Ascii.ascii) : list Ascii.ascii :=
  match fuel with
  | O => l
  | S fuel' =>
      match List.find (λ w, is_prefix_of w l) ws with
      | Some w => lstrip_with fuel' ws (drop (length w) l)
      | None => l
      end
  end.

(** [s.strip()] *)
Definition py_strip (s : string) : string :=
  let ws := map (map Ascii.ascii_of_nat) whitespace in
  let l := String.list_ascii_of_string s in
  let l1 := lstrip_with (length l) ws l in
  let l2 := rev (lstrip_with (length l1) (map (@rev _) ws) (rev l1)) in
  String.string_of_list_ascii l2.

Definition import_patch : string :=
"
# Enhanced Security Integration
try:
    from flaskUI.restful_enhanced import initialize_enhanced_security
    ENHANCED_SECURITY = True
    print(" +:+ dq +:+
"✅ Enhanced Security Module Loaded" +:+ dq +:+
")
except ImportError as e:
    ENHANCED_SECURITY = False
    print(f" +:+ dq +:+
"⚠️  Enhanced Security not available: {e}" +:+ dq +:+
")
".

Definition init_patch : string :=
"
    # Initialize Enhanced Security
    if ENHANCED_SECURITY:
        try:
            initialize_enhanced_security(app, bridgeConfig)
        except Exception as e:
            print(f" +:+ dq +:+
"⚠️  Failed to initialize enhanced security: {e}" +:+ dq +:+
")
".

(** Whether a line of the patched list is one of the two inserted
    blocks. *)
Definition is_patch (l : string) : bool :=
  String.eqb l import_patch || String.eqb l init_patch.

(** Two small emulator sources for the examples: one that creates the
    Flask app, one that does not. *)
Definition emulator_with_app : string :=
"import os
from flask import Flask
x = 1
app = Flask(__name__)
y = 2
# routes
z = 3".

Definition emulator_without_app : string :=
"import os
x = 1".

(** The two paths that [patch_hue_emulator] reads and writes,
    ["/opt/hue-emulator/HueEmulator3.py"] and the same with
    [".original"] appended: the text of each file, [None] when it does
    not exist. *)
Record files := {
  emulator : option string;
  backup : option string
}.

Section PatchSecurity.

(** [str.strip] *)
Variable strip : string → string.

(** [line.startswith('from') or line.startswith('import')] *)
Definition is_import_line (line : string) : bool :=
  String.prefix "from" line || String.prefix "import" line.

(** The first loop: [import_index] after the lines from index [i] on,
    starting from the value [acc]. *)
Fixpoint import_index_from (i acc : nat) (lines : list string) : nat :=
  match lines with
  | [] => acc
  | line :: rest =>
      import_index_from (S i) (if is_import_line line then S i else acc) rest
  end.

Definition import_index (lines : list string) : nat :=
  import_index_from 0 0 lines.

(** ['app = Flask' in line or 'Flask(__name__)' in line] *)
Definition creates_app (line : string) : bool :=
  contains "app = Flask" line || contains "Flask(__name__)" line.

(** [lines[j].strip().startswith('#')] *)
Definition is_comment_line (line : string) : bool :=
  String.prefix "#" (strip line).

(** The index of the first line that creates the app, counting from
    [i]: where the second loop reaches its [break]. *)
Fixpoint find_app (i : nat) (lines : list string) : option nat :=
  match lines with
  | [] => None
  | line :: rest => if creates_app line then Some i else find_app (S i) rest
  end.

(** The [while] loop: the number of lines passed before a comment line
    or the end. *)
Fixpoint skip_to_comment (rest : list string) : nat :=
  match rest with
  | [] => O
  | line :: rest' =>
      if is_comment_line line then O else S (skip_to_comment rest')
  end.

Definition init_index (i : nat) (lines : list string) : nat :=
  (i + 1 + skip_to_comment (drop (i + 1) lines))%nat.

Definition insert_init (lines : list string) : list string :=
  match find_app 0 lines with
  | Some i => insert_at (init_index i lines) init_patch lines
  | None => lines
  end.

(** [lines] after the two insertions. *)
Definition patched_lines (content : string) : list string :=
  let lines := split_lines content in
  insert_init (insert_at (import_index lines) import_patch lines).

Definition patch_content (content : string) : string :=
  join_lines (patched_lines content).

Definition patch_hue_emulator (fs : files) : bool * files :=
  match emulator fs with
  | None => (false, fs)
  | Some content =>
      if contains "initialize_enhanced_security" content then (true, fs)
      else
        (true,
         {| emulator := Some (patch_content content);
            backup := match backup fs with
                      | None => Some content
                      | Some original => Some original
                      end |})
  end.

(** The files after one run. *)
Definition run_patcher (fs : files) : files := snd (patch_hue_emulator fs).

End PatchSecurity.

(** * Properties *)

(** ** Comparisons on timestamps *)

Lemma Qgtb_true (a b : Q) : Qgtb a b = true ↔ (b < a)%Q.
Proof.
  unfold Qgtb. rewrite negb_true_iff. split.
  - intros E. apply Qnot_le_lt. intros Hle.
    apply Qle_bool_iff in Hle. congruence.
  - intros Hlt. destruct (Qle_bool a b) eqn:E; [|reflexivity].
    apply Qle_bool_iff in E. lra.
Qed.

Lemma Qgtb_false (a b : Q) : Qgtb a b = false ↔ (a <= b)%Q.
Proof.
  unfold Qgtb. rewrite negb_false_iff. apply Qle_bool_iff.
Qed.

Lemma py_max0_is_zero (x : Q) : Qeq_bool (py_max0 x) 0 = true ↔ (x <= 0)%Q.
Proof.
  unfold py_max0. destruct (Qgtb x 0) eqn:E.
  - apply Qgtb_true in E. rewrite Qeq_bool_iff. split; intros; lra.
  - apply Qgtb_false in E. split; [intros _; exact E | reflexivity].
Qed.

Lemma py_max0_not_zero (x : Q) : Qeq_bool (py_max0 x) 0 = false ↔ (0 < x)%Q.
Proof.
  split.
  - intros E. apply Qnot_le_lt. intros Hle.
    apply py_max0_is_zero in Hle. congruence.
  - intros Hlt. destruct (Qeq_bool (py_max0 x) 0) eqn:E; [|reflexivity].
    apply py_max0_is_zero in E. lra.
Qed.

Lemma inject_Z_pos (z : Z) : 0 < z → (0 < inject_Z z)%Q.
Proof. intros H. change 0%Q with (inject_Z 0). rewrite <- Zlt_Qlt. exact H. Qed.

(** ** What the two queries report *)

Lemma is_button_pressed_true (now : Q) (s : EnhancedSecurity) :
  fst (is_button_pressed now s) = true ↔
  button_pressed s = true ∧
  (now - button_press_time s <= inject_Z (button_timeout s))%Q.
Proof.
  unfold is_button_pressed. destruct (button_pressed s); simpl.
  - destruct (Qgtb _ _) eqn:E; simpl.
    + apply Qgtb_true in E. split; [discriminate | intros [_ H]; lra].
    + apply Qgtb_false in E. tauto.
  - split; [discriminate | intros [H _]; discriminate].
Qed.

Lemma is_button_pressed_false (now : Q) (s : EnhancedSecurity) :
  fst (is_button_pressed now s) = false ↔
  button_pressed s = false ∨
  (inject_Z (button_timeout s) < now - button_press_time s)%Q.
Proof.
  unfold is_button_pressed. destruct (button_pressed s); simpl.
  - destruct (Qgtb _ _) eqn:E; simpl.
    + apply Qgtb_true in E. split; [intros _; right; exact E | reflexivity].
    + apply Qgtb_false in E. split; [discriminate | intros [H|H]; [discriminate | lra]].
  - split; [intros _; left; reflexivity | reflexivity].
Qed.

Lemma is_button_pressed_true_state (now : Q) (s : EnhancedSecurity) :
  fst (is_button_pressed now s) = true → snd (is_button_pressed now s) = s.
Proof.
  unfold is_button_pressed. destruct (button_pressed s); simpl; [|discriminate].
  destruct (Qgtb _ _); simpl; [discriminate | reflexivity].
Qed.

Lemma is_button_pressed_false_state (now : Q) (s : EnhancedSecurity) :
  fst (is_button_pressed now s) = false →
  snd (is_button_pressed now s) = s ∧ button_pressed s = false ∨
  snd (is_button_pressed now s) = _button_timeout s ∧ button_pressed s = true.
Proof.
  unfold is_button_pressed. destruct (button_pressed s); simpl; [|auto].
  destruct (Qgtb _ _); simpl; [auto | discriminate].
Qed.

Lemma get_status_armed (now : Q) (s : EnhancedSecurity) :
  st_button_pressed (fst (get_status now s)) = true ↔
  button_pressed s = true ∧
  (now - button_press_time s < inject_Z (button_timeout s))%Q.
Proof.
  unfold get_status. destruct (button_pressed s); simpl.
  - destruct (Qeq_bool _ _) eqn:E; simpl.
    + apply py_max0_is_zero in E. split; [discriminate | intros [_ H]; lra].
    + apply py_max0_not_zero in E. split; [intros _; split; [reflexivity | lra] | reflexivity].
  - split; [discriminate | intros [H _]; discriminate].
Qed.

Lemma get_status_armed_state (now : Q) (s : EnhancedSecurity) :
  st_button_pressed (fst (get_status now s)) = true →
  snd (get_status now s) = s.
Proof.
  unfold get_status. destruct (button_pressed s); simpl; [|discriminate].
  destruct (Qeq_bool _ _); simpl; [discriminate | reflexivity].
Qed.

Lemma get_status_disarmed_state (now : Q) (s : EnhancedSecurity) :
  st_button_pressed (fst (get_status now s)) = false →
  snd (get_status now s) = s ∧ button_pressed s = false ∨
  snd (get_status now s) = _button_timeout s ∧ button_pressed s = true.
Proof.
  unfold get_status. destruct (button_pressed s); simpl; [|auto].
  destruct (Qeq_bool _ _); simpl; [auto | discriminate].
Qed.

(** An armed window answers both queries positively until its timeout
    has elapsed, and the first query leaves the state as it is. *)
Lemma window_open (later : Q) (s : EnhancedSecurity) :
  button_pressed s = true →
  (later - button_press_time s < inject_Z (button_timeout s))%Q →
  fst (is_button_pressed later s) = true ∧
  snd (is_button_pressed later s) = s ∧
  st_button_pressed (fst (get_status later s)) = true.
Proof.
  intros Hp Hlt.
  assert (Hact : fst (is_button_pressed later s) = true).
  { apply is_button_pressed_true. split; [exact Hp | lra]. }
  split; [exact Hact |]. split.
  - apply is_button_pressed_true_state, Hact.
  - apply get_status_armed. split; assumption.
Qed.

(** ** Arming *)

Lemma press_button_state (now : Q) (s : EnhancedSecurity) :
  button_pressed (snd (press_button now s)) = true ∧
  button_press_time (snd (press_button now s)) = now ∧
  button_timeout (snd (press_button now s)) = button_timeout s ∧
  security_enabled (snd (press_button now s)) = security_enabled s.
Proof.
  unfold press_button. destruct (security_enabled s); simpl; auto.
Qed.

(** C6, amended.  [press_button] cannot fail: from every state and under
    every configuration it returns [success = True] with the configured
    timeout.  When the configured timeout is positive or
    [BUTTON_SECURITY] is false, so that no expiry callback can run before
    the call returns, it returns the indicator state it leaves behind and
    leaves the window armed with the arming time equal to the clock
    reading, and [is_button_pressed] and then [get_status], called less
    than the timeout after the arming, both report the window armed;
    when the timeout is positive that holds in particular at the instant
    of the arming itself.  What the call returns and leaves behind under
    [BUTTON_SECURITY=true] with a timeout of 0 or less, where the timer
    it starts is due at once, is not stated. *)
Theorem press_button_always_arms (s : EnhancedSecurity) (now : Q) :
  let r := fst (press_button now s) in
  let s' := snd (press_button now s) in
  pr_success r = true ∧
  pr_timeout r = button_timeout s ∧
  (security_enabled s = false ∨ 0 < button_timeout s →
   pr_leds r = led_state s' ∧
   button_pressed s' = true ∧
   button_press_time s' = now ∧
   ∀ later : Q,
     (later - now < inject_Z (button_timeout s))%Q →
     fst (is_button_pressed later s') = true ∧
     st_button_pressed
       (fst (get_status later (snd (is_button_pressed later s')))) = true) ∧
  (0 < button_timeout s →
   fst (is_button_pressed now s') = true ∧
   st_button_pressed
     (fst (get_status now (snd (is_button_pressed now s')))) = true).
Proof.
  intros r s'.
  destruct (press_button_state now s) as (Hp & Ht & Hto & _).
  fold s' in Hp, Ht, Hto.
  assert (Hlater : ∀ later : Q,
     (later - now < inject_Z (button_timeout s))%Q →
     fst (is_button_pressed later s') = true ∧
     st_button_pressed
       (fst (get_status later (snd (is_button_pressed later s')))) = true).
  { intros later Hlt.
    destruct (window_open later s') as (Hact & Hst & Harmed).
    - exact Hp.
    - rewrite Ht, Hto. exact Hlt.
    - rewrite Hst. split; assumption. }
  split; [|split; [|split]].
  - subst r. unfold press_button. destruct (security_enabled s); reflexivity.
  - subst r. unfold press_button. destruct (security_enabled s); reflexivity.
  - intros _. split; [|split; [exact Hp | split; [exact Ht | exact Hlater]]].
    subst r s'. unfold press_button. destruct (security_enabled s); reflexivity.
  - intros Hpos. apply Hlater. pose proof (inject_Z_pos _ Hpos). lra.
Qed.

(** The default configuration (timeout 30), armed at time 100 and
    queried at once. *)
Lemma press_button_always_arms_witness :
  let s' := snd (press_button 100 (init None None None)) in
  0 < button_timeout (init None None None) ∧
  pr_leds (fst (press_button 100 (init None None None))) = led_state s' ∧
  button_pressed s' = true ∧
  fst (is_button_pressed 100 s') = true.
Proof.
  intros s'.
  assert (Hpos : 0 < button_timeout (init None None None)) by reflexivity.
  destruct (press_button_always_arms (init None None None) 100)
    as (_ & _ & Hstate & Hnow).
  destruct (Hstate (or_intror Hpos)) as (Hleds & Harmed & _).
  destruct (Hnow Hpos) as (Hgate & _).
  split; [exact Hpos |]. split; [exact Hleds |].
  split; [exact Harmed | exact Hgate].
Defined.

(** C6 as stated fails under a configuration with [BUTTON_TIMEOUT=0]:
    the status queried at the instant of arming reports the window
    expired; and with [BUTTON_TIMEOUT=-1] the window is not active at
    that instant either. *)
Lemma press_button_nonpositive_timeout :
  st_button_pressed
    (fst (get_status 100 (snd (press_button 100 (init (Some 0) None None)))))
  = false ∧
  fst (is_button_pressed 100
         (snd (press_button 100 (init (Some (-1)) None None)))) = false.
Proof. split; reflexivity. Qed.

(** ** Status against the gate *)

(** [get_status] never reports armed when [is_button_pressed] would
    refuse. *)
Lemma status_never_stale (now : Q) (s : EnhancedSecurity) :
  st_button_pressed (fst (get_status now s)) = true →
  fst (is_button_pressed now s) = true.
Proof.
  rewrite get_status_armed, is_button_pressed_true.
  intros [Hp Hlt]. split; [exact Hp | lra].
Qed.

(** Away from the deadline itself the two queries agree. *)
Lemma status_agrees_off_deadline (now : Q) (s : EnhancedSecurity) :
  ¬ (now - button_press_time s == inject_Z (button_timeout s))%Q →
  st_button_pressed (fst (get_status now s)) = fst (is_button_pressed now s).
Proof.
  intros Hne.
  destruct (fst (is_button_pressed now s)) eqn:E.
  - apply is_button_pressed_true in E as [Hp Hle].
    apply get_status_armed. split; [exact Hp |].
    destruct (Qlt_le_dec (now - button_press_time s) (inject_Z (button_timeout s)))
      as [Hlt|Hge]; [exact Hlt |].
    exfalso. apply Hne. lra.
  - destruct (st_button_pressed (fst (get_status now s))) eqn:E'; [|reflexivity].
    apply status_never_stale in E'. congruence.
Qed.

(** The scenario of the specification: timeout 1, queried 1.5 seconds
    after arming. *)
Lemma status_after_expiry_scenario (t : Q) (sec_on led_on : option bool) :
  let s := snd (press_button t (init (Some 1) led_on sec_on)) in
  st_button_pressed (fst (get_status (t + (3 # 2))%Q s)) = false ∧
  st_time_remaining (fst (get_status (t + (3 # 2))%Q s)) = 0.
Proof.
  intros s.
  destruct (press_button_state t (init (Some 1) led_on sec_on)) as (Hp & Ht & Hto & _).
  fold s in Hp, Ht, Hto. simpl in Hto.
  unfold get_status. rewrite Hp; simpl.
  assert (E : Qeq_bool
    (py_max0 (inject_Z (button_timeout s) - (t + (3 # 2) - button_press_time s))%Q) 0 = true).
  { apply py_max0_is_zero. rewrite Ht, Hto. unfold inject_Z. lra. }
  rewrite E. split; reflexivity.
Qed.

(** C5, the defect.  Default configuration (timeout 30), armed at time
    1700000000 and queried at time 1700000030, the deadline itself: [is_button_pressed] tests
    [elapsed > timeout] and answers [True], [get_status] tests
    [max(0, timeout - elapsed) == 0] and reports the window expired, and
    disarms it. *)
Theorem status_disagrees_at_deadline :
  let s := snd (press_button 1700000000 (init None None None)) in
  fst (is_button_pressed 1700000030 s) = true ∧
  st_button_pressed (fst (get_status 1700000030 s)) = false ∧
  st_time_remaining (fst (get_status 1700000030 s)) = 0 ∧
  button_pressed (snd (get_status 1700000030 s)) = false ∧
  snd (is_button_pressed 1700000030 s) = s.
Proof. repeat split. Qed.

(** ** Timers *)

Lemma cancel_cleanup_lookup (s : EnhancedSecurity) (i : nat) (tm : timer) :
  cancel_cleanup s !! i = Some tm →
  ∃ tm0, threads s !! i = Some tm0 ∧
    (tm = tm0 ∧ _cleanup_thread s ≠ Some i ∨
     tm = timer_cancel tm0 ∧ _cleanup_thread s = Some i).
Proof.
  unfold cancel_cleanup. destruct (_cleanup_thread s) as [j|].
  - destruct (decide (j = i)) as [->|Hne].
    + rewrite list_lookup_alter_eq.
      destruct (threads s !! i) as [tm0|]; simpl; [|discriminate].
      intros [= <-]. exists tm0. auto.
    + rewrite list_lookup_alter_ne by exact Hne.
      intros H. exists tm. split; [exact H |]. left. split; [reflexivity | congruence].
  - intros H. exists tm. split; [exact H |]. left. split; [reflexivity | discriminate].
Qed.

Lemma cancel_cleanup_finished (s : EnhancedSecurity) :
  timers_wf s →
  ∀ (i : nat) (tm : timer), cancel_cleanup s !! i = Some tm → finished tm = true.
Proof.
  intros Hwf i tm H.
  apply cancel_cleanup_lookup in H as (tm0 & H0 & [[-> Hne] | [-> _]]).
  - destruct (finished tm0) eqn:E; [reflexivity |].
    destruct (Hwf i tm0 H0 E) as [Hc _]. contradiction.
  - reflexivity.
Qed.

Lemma cancel_cleanup_referenced (s : EnhancedSecurity) (i : nat) (tm : timer) :
  _cleanup_thread s = Some i → cancel_cleanup s !! i = Some tm →
  finished tm = true.
Proof.
  intros Hc H.
  apply cancel_cleanup_lookup in H as (tm0 & _ & [[_ Hne] | [-> _]]);
    [contradiction | reflexivity].
Qed.

Lemma timers_wf_init (timeout : option Z) (led sec : option bool) :
  timers_wf (init timeout led sec).
Proof. intros i tm H. simpl in H. rewrite lookup_nil in H. discriminate. Qed.

Lemma timers_wf_button_timeout (s : EnhancedSecurity) :
  timers_wf s → timers_wf (_button_timeout s).
Proof. intros Hwf i tm H E. exact (Hwf i tm H E). Qed.

Lemma timers_wf_press (now : Q) (s : EnhancedSecurity) :
  timers_wf s → timers_wf (snd (press_button now s)).
Proof.
  intros Hwf. unfold press_button.
  destruct (security_enabled s) eqn:Hsec; simpl.
  - intros i tm H E. simpl in *.
    apply lookup_snoc_Some in H as [[_ H] | [-> <-]].
    + rewrite (cancel_cleanup_finished s Hwf i tm H) in E. discriminate.
    + split; reflexivity.
  - intros i tm H E. simpl in *. destruct (Hwf i tm H E) as [Hc Hs].
    congruence.
Qed.

Lemma timers_wf_reset (s : EnhancedSecurity) :
  timers_wf s → timers_quiet (reset s).
Proof.
  intros Hwf i tm H. simpl in H.
  exact (cancel_cleanup_finished s Hwf i tm H).
Qed.

Lemma timers_quiet_wf (s : EnhancedSecurity) : timers_quiet s → timers_wf s.
Proof. intros Hq i tm H E. rewrite (Hq i tm H) in E. discriminate. Qed.

Lemma timers_wf_timer_run (i : nat) (now : Q) (s : EnhancedSecurity) :
  timers_wf s → timers_wf (timer_run i now s).
Proof.
  intros Hwf. unfold timer_run.
  destruct (threads s !! i) as [tm|] eqn:Hi; [|exact Hwf].
  destruct (negb (finished tm) && timer_due now tm); [|exact Hwf].
  intros j tm' H E. simpl in *.
  destruct (decide (i = j)) as [->|Hne].
  - rewrite list_lookup_alter_eq, Hi in H. simpl in H.
    injection H as <-. discriminate.
  - rewrite list_lookup_alter_ne in H by exact Hne. exact (Hwf j tm' H E).
Qed.

Lemma timers_wf_step (s : EnhancedSecurity) (e : event) :
  timers_wf s → timers_wf (step s e).
Proof.
  intros Hwf. destruct e as [now | now | now | | i now]; simpl.
  - apply timers_wf_press, Hwf.
  - unfold is_button_pressed. destruct (negb _); [exact Hwf |].
    destruct (Qgtb _ _); [apply timers_wf_button_timeout |]; exact Hwf.
  - unfold get_status. destruct (negb _); [exact Hwf |].
    destruct (Qeq_bool _ _); [apply timers_wf_button_timeout |]; exact Hwf.
  - apply timers_quiet_wf, timers_wf_reset, Hwf.
  - apply timers_wf_timer_run, Hwf.
Qed.

Lemma run_snoc (tr : list event) (e : event) (s : EnhancedSecurity) :
  run (tr ++ [e]) s = step (run tr s) e.
Proof. unfold run. apply fold_left_app. Qed.

Lemma timers_wf_run (tr : list event) (s : EnhancedSecurity) :
  timers_wf s → timers_wf (run tr s).
Proof.
  revert s. induction tr as [|e tr IH]; intros s Hwf; [exact Hwf |].
  simpl. apply IH, timers_wf_step, Hwf.
Qed.

(** Every state the program reaches has well-formed timers. *)
Lemma timers_wf_reachable (timeout : option Z) (led sec : option bool)
    (tr : list event) :
  timers_wf (run tr (init timeout led sec)).
Proof. apply timers_wf_run, timers_wf_init. Qed.

(** A timer callback on a heap where nothing can fire changes nothing. *)
Lemma timer_run_quiet (i : nat) (now : Q) (s : EnhancedSecurity) :
  timers_quiet s → timer_run i now s = s.
Proof.
  intros Hq. unfold timer_run.
  destruct (threads s !! i) as [tm|] eqn:Hi; [|reflexivity].
  rewrite (Hq i tm Hi). reflexivity.
Qed.

(** ** Reset *)

Lemma timer_cancel_twice (tm : timer) :
  timer_cancel (timer_cancel tm) = timer_cancel tm.
Proof. reflexivity. Qed.

Lemma reset_reset (s : EnhancedSecurity) : reset (reset s) = reset s.
Proof.
  unfold reset, _button_timeout, cancel_cleanup. simpl.
  destruct (_cleanup_thread s) as [i|]; simpl; [|reflexivity].
  f_equal. rewrite list_alter_alter_eq.
  apply list_alter_ext; [|reflexivity].
  intros tm _. apply timer_cancel_twice.
Qed.

(** C10.  From every state [reset] leaves the window disarmed, so that
    [is_button_pressed] answers [False] at any instant, with the arming
    time back at 0 and the three indicator flags off; the timer that
    [_cleanup_thread] refers to is cancelled, and in a state where every
    live timer is the referenced one (as in every state the program
    reaches) no timer of the heap can fire any more, a late callback
    leaving the state as it is; a second [reset] changes nothing. *)
Theorem reset_disarms_idempotent (s : EnhancedSecurity) :
  let s' := reset s in
  button_pressed s' = false ∧
  (∀ now : Q, fst (is_button_pressed now s') = false) ∧
  button_press_time s' = 0%Q ∧
  led_state s' = leds_off ∧
  (∀ (i : nat) (tm : timer),
     _cleanup_thread s = Some i → threads s' !! i = Some tm →
     finished tm = true) ∧
  (timers_wf s →
   timers_quiet s' ∧ ∀ (i : nat) (now : Q), timer_run i now s' = s') ∧
  reset s' = s'.
Proof.
  intros s'. repeat split.
  - intros i tm Hc H. simpl in H. exact (cancel_cleanup_referenced s i tm Hc H).
  - apply timers_wf_reset; assumption.
  - intros i now. apply timer_run_quiet, timers_wf_reset. assumption.
  - apply reset_reset.
Qed.

(** The window armed at time 5 under the default configuration, then
    reset. *)
Lemma reset_disarms_idempotent_witness :
  let s := run [Press 5] (init None None None) in
  button_pressed s = true ∧
  button_pressed (reset s) = false ∧
  timers_quiet (reset s) ∧
  reset (reset s) = reset s.
Proof.
  intros s.
  pose proof (reset_disarms_idempotent s) as (H1 & _ & _ & _ & _ & H6 & H7).
  split; [reflexivity |]. split; [exact H1 |]. split; [| exact H7].
  apply H6. apply timers_wf_run, timers_wf_init.
Defined.

(** ** The indicator *)

Lemma leds_inv_init (timeout : option Z) (led sec : option bool) :
  leds_inv (init timeout led sec).
Proof. unfold leds_inv. simpl. rewrite andb_false_r. reflexivity. Qed.

Lemma leds_inv_button_timeout (s : EnhancedSecurity) :
  leds_inv (_button_timeout s).
Proof. unfold leds_inv. simpl. rewrite andb_false_r. reflexivity. Qed.

Lemma leds_inv_step (s : EnhancedSecurity) (e : event) :
  leds_inv s → leds_inv (step s e).
Proof.
  intros Hinv. destruct e as [now | now | now | | i now]; simpl.
  - unfold press_button, leds_inv in *.
    destruct (security_enabled s) eqn:Hsec; simpl; try rewrite Hsec; simpl.
    + reflexivity.
    + simpl in Hinv. exact Hinv.
  - unfold is_button_pressed. destruct (negb _); [exact Hinv |].
    destruct (Qgtb _ _); [apply leds_inv_button_timeout | exact Hinv].
  - unfold get_status. destruct (negb _); [exact Hinv |].
    destruct (Qeq_bool _ _); [apply leds_inv_button_timeout | exact Hinv].
  - unfold leds_inv. simpl. rewrite andb_false_r. reflexivity.
  - unfold timer_run. destruct (threads s !! i) as [tm|]; [|exact Hinv].
    destruct (negb (finished tm) && timer_due now tm); [|exact Hinv].
    unfold leds_inv. simpl. rewrite andb_false_r. reflexivity.
Qed.

Lemma leds_inv_run (tr : list event) (s : EnhancedSecurity) :
  leds_inv s → leds_inv (run tr s).
Proof.
  revert s. induction tr as [|e tr IH]; intros s Hinv; [exact Hinv |].
  simpl. apply IH, leds_inv_step, Hinv.
Qed.

(** The configuration read at start-up is never written again. *)
Lemma config_step (s : EnhancedSecurity) (e : event) :
  button_timeout (step s e) = button_timeout s ∧
  security_enabled (step s e) = security_enabled s ∧
  led_indicator_enabled (step s e) = led_indicator_enabled s.
Proof.
  destruct e as [now | now | now | | i now]; simpl.
  - unfold press_button. destruct (security_enabled s); simpl; auto.
  - unfold is_button_pressed. destruct (negb _); [auto |].
    destruct (Qgtb _ _); simpl; auto.
  - unfold get_status. destruct (negb _); [auto |].
    destruct (Qeq_bool _ _); simpl; auto.
  - auto.
  - unfold timer_run. destruct (threads s !! i) as [tm|]; [|auto].
    destruct (negb (finished tm) && timer_due now tm); simpl; auto.
Qed.

Lemma config_run (tr : list event) (s : EnhancedSecurity) :
  button_timeout (run tr s) = button_timeout s ∧
  security_enabled (run tr s) = security_enabled s ∧
  led_indicator_enabled (run tr s) = led_indicator_enabled s.
Proof.
  revert s. induction tr as [|e tr IH]; intros s; [auto |].
  simpl. destruct (IH (step s e)) as (-> & -> & ->). apply config_step.
Qed.

(** C7, amended.  After construction and after any sequence of
    [press_button], [is_button_pressed], [get_status], [reset] and timer
    callbacks, the three indicator flags are equal to one another, and
    their common value is [security_enabled and button_pressed]: under
    [BUTTON_SECURITY=true] they are on exactly when the window is armed,
    under [BUTTON_SECURITY=false] they stay off whether it is armed or
    not. *)
Theorem indicator_flags_flip_together
    (timeout : option Z) (led sec : option bool) (tr : list event) :
  let s := run tr (init timeout led sec) in
  led1 (led_state s) = led2 (led_state s) ∧
  led2 (led_state s) = led3 (led_state s) ∧
  led1 (led_state s) = default true sec && button_pressed s.
Proof.
  intros s.
  assert (Hinv : leds_inv s) by apply leds_inv_run, leds_inv_init.
  destruct (config_run tr (init timeout led sec)) as (_ & Hsec & _).
  fold s in Hsec. simpl in Hsec.
  unfold leds_inv in Hinv. rewrite Hsec in Hinv. rewrite Hinv.
  destruct (default true sec && button_pressed s); repeat split.
Qed.

(** C7 as stated fails under [BUTTON_SECURITY=false]: after one
    [press_button] the window is armed and the three flags are off. *)
Lemma indicator_off_while_armed :
  let s := run [Press 0] (init None None (Some false)) in
  button_pressed s = true ∧ led_state s = leds_off.
Proof. split; reflexivity. Qed.

(** ** Expiry *)

Lemma cleared_button_timeout (s : EnhancedSecurity) : cleared (_button_timeout s).
Proof. repeat split. Qed.

(** A step other than [press_button] either clears the window or leaves
    the armed flag, the arming time and the indicator as they were. *)
Lemma step_no_press (s : EnhancedSecurity) (e : event) :
  is_press e = false →
  cleared (step s e) ∨
  button_pressed (step s e) = button_pressed s ∧
  button_press_time (step s e) = button_press_time s ∧
  led_state (step s e) = led_state s.
Proof.
  destruct e as [now | now | now | | i now]; simpl; intros Hnp.
  - discriminate.
  - unfold is_button_pressed. destruct (negb _); [auto |].
    destruct (Qgtb _ _); simpl; [left; apply cleared_button_timeout | auto].
  - unfold get_status. destruct (negb _); [auto |].
    destruct (Qeq_bool _ _); simpl; [left; apply cleared_button_timeout | auto].
  - left. repeat split.
  - unfold timer_run. destruct (threads s !! i) as [tm|]; [|auto].
    destruct (negb (finished tm) && timer_due now tm); [|auto].
    left. repeat split.
Qed.

Lemma armed_or_cleared_step (t0 : Q) (s : EnhancedSecurity) (e : event) :
  is_press e = false →
  armed_at t0 s ∨ cleared s → armed_at t0 (step s e) ∨ cleared (step s e).
Proof.
  intros Hnp H.
  destruct (step_no_press s e Hnp) as [Hc | (Hp & Ht & Hl)]; [auto |].
  destruct H as [[Ha Hb] | (Ha & Hb & Hc)].
  - left. split; congruence.
  - right. repeat split; congruence.
Qed.

Lemma armed_or_cleared_run (t0 : Q) (tr : list event) (s : EnhancedSecurity) :
  forallb (λ e, negb (is_press e)) tr = true →
  armed_at t0 s ∨ cleared s → armed_at t0 (run tr s) ∨ cleared (run tr s).
Proof.
  revert s. induction tr as [|e tr IH]; intros s Hnp H; [exact H |].
  simpl in Hnp. apply andb_true_iff in Hnp as [He Htr].
  apply negb_true_iff in He.
  simpl. apply IH; [exact Htr |]. apply armed_or_cleared_step; assumption.
Qed.

(** In a state reached from construction, an armed window carries the
    time of the latest [press_button]. *)
Lemma armed_since_last_press (tr : list event) (s : EnhancedSecurity)
    (acc : option Q) :
  (button_pressed s = true → acc = Some (button_press_time s)) →
  button_pressed (run tr s) = true →
  last_press tr acc = Some (button_press_time (run tr s)).
Proof.
  revert s acc. induction tr as [|e tr IH]; intros s acc Hacc Hp.
  - simpl in *. auto.
  - simpl in Hp.
    destruct (is_press e) eqn:He.
    + destruct e as [now | | | |]; try discriminate. simpl.
      apply IH; [|exact Hp]. intros _.
      destruct (press_button_state now s) as (_ & -> & _). reflexivity.
    + assert (Hl : last_press (e :: tr) acc = last_press tr acc)
        by (destruct e; [discriminate | reflexivity..]).
      rewrite Hl. apply IH; [|exact Hp].
      destruct (step_no_press s e He) as [(Hc & _) | (Hb & Ht & _)].
      * intros Hx. congruence.
      * rewrite Hb, Ht. exact Hacc.
Qed.

Lemma last_press_snoc_query (tr : list event) (q : event) (acc : option Q) :
  is_press q = false → last_press (tr ++ [q]) acc = last_press tr acc.
Proof.
  intros Hq. revert acc. induction tr as [|e tr IH]; intros acc; simpl.
  - destruct q; [discriminate | reflexivity..].
  - destruct e; apply IH.
Qed.

(** After a query, an armed window is within its timeout. *)
Lemma query_within_timeout (now : Q) (q : event) (s : EnhancedSecurity) :
  q = IsPressed now ∨ q = GetStatus now →
  button_pressed (step s q) = true →
  (now - button_press_time (step s q) <= inject_Z (button_timeout (step s q)))%Q.
Proof.
  intros [-> | ->] Hp; simpl in *.
  - destruct (fst (is_button_pressed now s)) eqn:E.
    + rewrite (is_button_pressed_true_state _ _ E).
      apply is_button_pressed_true in E. tauto.
    + apply is_button_pressed_false_state in E as [[Hs Hb] | [Hs _]];
        rewrite Hs in Hp; [congruence | discriminate].
  - destruct (st_button_pressed (fst (get_status now s))) eqn:E.
    + rewrite (get_status_armed_state _ _ E).
      apply get_status_armed in E. destruct E as [_ E]. lra.
    + apply get_status_disarmed_state in E as [[Hs Hb] | [Hs _]];
        rewrite Hs in Hp; [congruence | discriminate].
Qed.

(** C4.  (1) In every state reached from construction by calls and timer
    callbacks, right after a query ([is_button_pressed] or [get_status])
    made at time [now]: if the window is armed then its arming time is
    the time of the latest [press_button] and [now] minus the arming time
    is at most the timeout.  (2) After a [press_button] at [t0] followed
    by any steps other than [press_button], a call of [is_button_pressed]
    more than the timeout after [t0] answers [False] and leaves the
    window disarmed, the arming time cleared and the three indicator
    flags off.  (3) When that call is the first step after the
    [press_button], it is the call itself that disarms. *)
Theorem window_invariant_and_lazy_expiry :
  (∀ (timeout : option Z) (led sec : option bool) (tr : list event)
     (now : Q) (q : event),
     q = IsPressed now ∨ q = GetStatus now →
     let s := run (tr ++ [q]) (init timeout led sec) in
     button_pressed s = true →
     last_press tr None = Some (button_press_time s) ∧
     (now - button_press_time s <= inject_Z (button_timeout s))%Q) ∧
  (∀ (s : EnhancedSecurity) (t0 : Q) (tr : list event) (now : Q),
     forallb (λ e, negb (is_press e)) tr = true →
     (inject_Z (button_timeout s) < now - t0)%Q →
     let s1 := run tr (snd (press_button t0 s)) in
     fst (is_button_pressed now s1) = false ∧
     cleared (snd (is_button_pressed now s1))) ∧
  (∀ (s : EnhancedSecurity) (t0 now : Q),
     (inject_Z (button_timeout s) < now - t0)%Q →
     let s1 := snd (press_button t0 s) in
     button_pressed s1 = true ∧
     is_button_pressed now s1 = (false, _button_timeout s1)).
Proof.
  split; [|split].
  - intros timeout led sec tr now q Hq s Hp.
    assert (Hnp : is_press q = false) by (destruct Hq as [-> | ->]; reflexivity).
    split.
    + rewrite <- (last_press_snoc_query tr q None Hnp).
      apply armed_since_last_press; [|exact Hp]. simpl. discriminate.
    + subst s. rewrite run_snoc in *. apply query_within_timeout; assumption.
  - intros s t0 tr now Hnp Hlate s1.
    destruct (press_button_state t0 s) as (Hp & Ht & Hto & _).
    assert (Hs1 : armed_at t0 s1 ∨ cleared s1).
    { apply armed_or_cleared_run; [exact Hnp |]. left. split; assumption. }
    assert (HT : button_timeout s1 = button_timeout s).
    { subst s1. destruct (config_run tr (snd (press_button t0 s))) as (-> & _).
      exact Hto. }
    assert (E : fst (is_button_pressed now s1) = false).
    { apply is_button_pressed_false.
      destruct Hs1 as [[_ Ha] | [Hc _]]; [right | left; exact Hc].
      rewrite Ha, HT. exact Hlate. }
    split; [exact E |].
    apply is_button_pressed_false_state in E as [[-> Hb] | [-> _]].
    + destruct Hs1 as [[Ha _] | Hc]; [congruence | exact Hc].
    + apply cleared_button_timeout.
  - intros s t0 now Hlate s1.
    destruct (press_button_state t0 s) as (Hp & Ht & Hto & _).
    fold s1 in Hp, Ht, Hto. split; [exact Hp |].
    unfold is_button_pressed. rewrite Hp. simpl.
    assert (E : Qgtb (now - button_press_time s1) (inject_Z (button_timeout s1)) = true).
    { apply Qgtb_true. rewrite Ht, Hto. exact Hlate. }
    rewrite E. reflexivity.
Qed.

(** Default configuration: armed at 0, status read at 10, gate queried
    at 31. *)
Lemma window_invariant_and_lazy_expiry_witness :
  let s1 := run [GetStatus 10] (snd (press_button 0 (init None None None))) in
  button_pressed s1 = true ∧
  fst (is_button_pressed 31 s1) = false ∧
  cleared (snd (is_button_pressed 31 s1)).
Proof.
  intros s1. split; [reflexivity |].
  destruct window_invariant_and_lazy_expiry as (_ & H & _).
  apply (H (init None None None) 0%Q [GetStatus 10] 31%Q); reflexivity.
Defined.

(** ** Re-arming *)

(** A timer callback changes nothing when the referenced timer is not
    yet due. *)
Lemma timer_run_not_due (i : nat) (now : Q) (s : EnhancedSecurity) :
  timers_wf s →
  (∀ (j : nat) (tm : timer),
     _cleanup_thread s = Some j → threads s !! j = Some tm →
     finished tm = false → timer_due now tm = false) →
  timer_run i now s = s.
Proof.
  intros Hwf Hdue. unfold timer_run.
  destruct (threads s !! i) as [tm|] eqn:Hi; [|reflexivity].
  destruct (finished tm) eqn:Hf; [reflexivity |]. simpl.
  destruct (Hwf i tm Hi Hf) as [Hc _].
  rewrite (Hdue i tm Hc Hi Hf). reflexivity.
Qed.

(** What [press_button] does to the timers under [BUTTON_SECURITY=true]:
    the referenced timer is cancelled and a fresh one, started now, is
    referenced instead. *)
Lemma press_button_timers (now : Q) (s : EnhancedSecurity) :
  security_enabled s = true →
  let s' := snd (press_button now s) in
  let j := length (threads s) in
  _cleanup_thread s' = Some j ∧
  threads s' !! j = Some {| interval := button_timeout s;
                            started := now;
                            finished := false |} ∧
  length (threads s') = S j ∧
  (∀ (i : nat) (tm : timer),
     _cleanup_thread s = Some i → threads s !! i = Some tm →
     threads s' !! i = Some (timer_cancel tm)).
Proof.
  intros Hsec s' j. subst s' j. unfold press_button. rewrite Hsec. simpl.
  assert (Hlen : length (cancel_cleanup s) = length (threads s)).
  { unfold cancel_cleanup. destruct (_cleanup_thread s); [apply length_alter | reflexivity]. }
  rewrite Hlen. repeat split.
  - rewrite <- Hlen. apply list_lookup_middle. reflexivity.
  - rewrite length_app, Hlen. simpl. lia.
  - intros i tm Hc Hi.
    rewrite lookup_app_l by (rewrite Hlen; eapply lookup_lt_Some; exact Hi).
    unfold cancel_cleanup. rewrite Hc, list_lookup_alter_eq, Hi. reflexivity.
Qed.

Lemma timer_due_false (now : Q) (tm : timer) :
  (now < started tm + inject_Z (interval tm))%Q → timer_due now tm = false.
Proof.
  intros Hlt. unfold timer_due.
  destruct (Qle_bool _ _) eqn:E; [|reflexivity].
  apply Qle_bool_iff in E. lra.
Qed.

(** After [press_button] at [now], timer callbacks attempted before
    [now + timeout] leave the state as it is. *)
Lemma press_button_timers_silent (now : Q) (s : EnhancedSecurity)
    (tr : list event) :
  timers_wf s →
  Forall (timer_before (now + inject_Z (button_timeout s))) tr →
  run tr (snd (press_button now s)) = snd (press_button now s).
Proof.
  intros Hwf Htr.
  assert (Hwf' : timers_wf (snd (press_button now s))) by apply timers_wf_press, Hwf.
  induction Htr as [|e tr He Htr IH]; [reflexivity |].
  simpl. destruct e as [| | | | i t]; simpl in He; try contradiction.
  simpl. rewrite timer_run_not_due; [exact IH | exact Hwf' |].
  intros j tm Hc Hj Hf.
  destruct (security_enabled s) eqn:Hsec.
  - destruct (press_button_timers now s Hsec) as (Hc' & Hnew & _).
    rewrite Hc in Hc'. injection Hc' as ->. rewrite Hnew in Hj.
    injection Hj as <-. apply timer_due_false. simpl. exact He.
  - destruct (Hwf' j tm Hj Hf) as [_ Hs].
    destruct (press_button_state now s) as (_ & _ & _ & Hs').
    congruence.
Qed.

(** C8.  With a timeout of at least 2 (so that the second arming, at
    [timeout - 2] after the first, does not precede it): the arming time
    is the time of the second [press_button]; [is_button_pressed] and
    [get_status] at [timeout - 1] after the first arming, and at any
    instant less than the timeout after the second, report the window
    armed; under [BUTTON_SECURITY=true] the timer started by the first
    [press_button] is cancelled and a new one, started at the second, is
    pending; and no timer callback attempted before the new deadline
    changes the state. *)
Theorem rearm_restarts_window (s : EnhancedSecurity) (t0 : Q) :
  2 <= button_timeout s →
  let T := inject_Z (button_timeout s) in
  let s1 := snd (press_button t0 s) in
  let t1 := (t0 + T - 2)%Q in
  let s2 := snd (press_button t1 s1) in
  let t2 := (t0 + T - 1)%Q in
  button_pressed s2 = true ∧
  button_press_time s2 = t1 ∧
  fst (is_button_pressed t2 s2) = true ∧
  st_button_pressed (fst (get_status t2 s2)) = true ∧
  (∀ q : Q, (q - t1 < T)%Q →
     fst (is_button_pressed q s2) = true ∧
     st_button_pressed (fst (get_status q s2)) = true) ∧
  (security_enabled s = true →
   ∃ i j : nat,
     i ≠ j ∧
     _cleanup_thread s1 = Some i ∧
     threads s1 !! i = Some {| interval := button_timeout s;
                               started := t0; finished := false |} ∧
     threads s2 !! i = Some {| interval := button_timeout s;
                               started := t0; finished := true |} ∧
     _cleanup_thread s2 = Some j ∧
     threads s2 !! j = Some {| interval := button_timeout s;
                               started := t1; finished := false |}) ∧
  (timers_wf s →
   ∀ tr : list event, Forall (timer_before (t1 + T)) tr → run tr s2 = s2).
Proof.
  intros HT T s1 t1 s2 t2.
  destruct (press_button_state t0 s) as (Hp1 & Ht1 & Hto1 & Hs1).
  fold s1 in Hp1, Ht1, Hto1, Hs1.
  destruct (press_button_state t1 s1) as (Hp2 & Ht2 & Hto2 & Hs2).
  fold s2 in Hp2, Ht2, Hto2, Hs2.
  assert (HTq : (2 <= T)%Q).
  { subst T. change 2%Q with (inject_Z 2). rewrite <- Zle_Qle. exact HT. }
  assert (Hopen : ∀ q : Q, (q - t1 < T)%Q →
     fst (is_button_pressed q s2) = true ∧
     st_button_pressed (fst (get_status q s2)) = true).
  { intros q Hq. destruct (window_open q s2) as (Ha & _ & Hb).
    - exact Hp2.
    - rewrite Ht2, Hto2, Hto1. exact Hq.
    - split; assumption. }
  assert (Ht2' : (t2 - t1 < T)%Q) by (subst t1 t2; lra).
  split; [exact Hp2 |]. split; [exact Ht2 |].
  split; [apply Hopen, Ht2' |]. split; [apply Hopen, Ht2' |].
  split; [exact Hopen |]. split.
  - intros Hsec.
    destruct (press_button_timers t0 s Hsec) as (Hc1 & Hnew1 & Hlen1 & _).
    fold s1 in Hc1, Hnew1, Hlen1.
    assert (Hsec1 : security_enabled s1 = true) by congruence.
    destruct (press_button_timers t1 s1 Hsec1) as (Hc2 & Hnew2 & _ & Hold).
    fold s2 in Hc2, Hnew2, Hold.
    exists (length (threads s)), (length (threads s1)).
    split; [rewrite Hlen1; lia |].
    split; [exact Hc1 |]. split; [exact Hnew1 |].
    split; [exact (Hold _ _ Hc1 Hnew1) |].
    split; [exact Hc2 |]. rewrite Hnew2, Hto1. reflexivity.
  - intros Hwf tr Htr. subst s2.
    apply press_button_timers_silent.
    + apply timers_wf_press, Hwf.
    + fold s1. rewrite Hto1. exact Htr.
Qed.

(** Default configuration (timeout 30): armed at 0, armed again at 28,
    queried at 29. *)
Lemma rearm_restarts_window_witness :
  2 <= button_timeout (init None None None) ∧
  fst (is_button_pressed 29
         (run [Press 0; Press 28] (init None None None))) = true ∧
  st_button_pressed
    (fst (get_status 29
            (run [Press 0; Press 28] (init None None None)))) = true.
Proof.
  split; [discriminate |].
  destruct (rearm_restarts_window (init None None None) 0)
    as (_ & _ & Hgate & Hstatus & _); [discriminate |].
  split; [exact Hgate | exact Hstatus].
Defined.

(** ** Registration *)

Lemma cleared_run (tr : list event) (s : EnhancedSecurity) :
  forallb (λ e, negb (is_press e)) tr = true →
  cleared s → cleared (run tr s).
Proof.
  revert s. induction tr as [|e tr IH]; intros s Hnp Hc; [exact Hc |].
  simpl in Hnp. apply andb_true_iff in Hnp as [He Htr].
  apply negb_true_iff in He. simpl. apply IH; [exact Htr |].
  destruct (step_no_press s e He) as [H | (Hp & Ht & Hl)]; [exact H |].
  destruct Hc as (Ha & Hb & Hc). repeat split; congruence.
Qed.

Lemma cleared_init (timeout : option Z) (led sec : option bool) :
  cleared (init timeout led sec).
Proof. repeat split. Qed.

Section Registration.

Variable md5_hexdigest : string → string.
Variable sha256_hexdigest : string → string.

(** The wrapper when the gate refuses. *)
Lemma wrapper_refused (rd : readings) (data : request)
    (bridge : bridge_config) (sec : EnhancedSecurity) :
  fst (is_button_pressed (time_check rd) sec) = false →
  enhanced_auth_wrapper md5_hexdigest sha256_hexdigest true rd data bridge sec
  = ([error 101 EmptyString "link button not pressed"], bridge,
     snd (is_button_pressed (time_check rd) sec)).
Proof.
  intros E. unfold enhanced_auth_wrapper.
  destruct (is_button_pressed (time_check rd) sec) as [pressed sec1].
  simpl in E. subst pressed. reflexivity.
Qed.

(** C2.  With the security module loaded, a registration request made
    while [is_button_pressed] answers [False] returns exactly the error
    of type 101 and leaves [bridge_config], hence its whitelist, as it
    was (1).  The gate answers so, and the request is refused, (2) in
    every state reached from construction without any [press_button],
    and (3) more than the timeout after a [press_button] that no other
    has followed. *)
Theorem register_refused_when_inactive :
  (∀ (rd : readings) (data : request) (bridge : bridge_config)
     (sec : EnhancedSecurity),
     fst (is_button_pressed (time_check rd) sec) = false →
     let r := enhanced_auth_wrapper md5_hexdigest sha256_hexdigest true
                rd data bridge sec in
     fst (fst r) = [error 101 EmptyString "link button not pressed"] ∧
     snd (fst r) = bridge ∧
     whitelist (snd (fst r)) = whitelist bridge) ∧
  (∀ (timeout : option Z) (led sec : option bool) (tr : list event)
     (rd : readings) (data : request) (bridge : bridge_config),
     forallb (λ e, negb (is_press e)) tr = true →
     let r := enhanced_auth_wrapper md5_hexdigest sha256_hexdigest true
                rd data bridge (run tr (init timeout led sec)) in
     fst (fst r) = [error 101 EmptyString "link button not pressed"] ∧
     whitelist (snd (fst r)) = whitelist bridge) ∧
  (∀ (s : EnhancedSecurity) (t0 : Q) (tr : list event)
     (rd : readings) (data : request) (bridge : bridge_config),
     forallb (λ e, negb (is_press e)) tr = true →
     (inject_Z (button_timeout s) < time_check rd - t0)%Q →
     let r := enhanced_auth_wrapper md5_hexdigest sha256_hexdigest true
                rd data bridge (run tr (snd (press_button t0 s))) in
     fst (fst r) = [error 101 EmptyString "link button not pressed"] ∧
     whitelist (snd (fst r)) = whitelist bridge).
Proof.
  split; [|split].
  - intros rd data bridge sec E r. subst r.
    rewrite (wrapper_refused rd data bridge sec E). repeat split.
  - intros timeout led sec tr rd data bridge Hnp r. subst r.
    rewrite wrapper_refused; [repeat split |].
    apply is_button_pressed_false. left.
    apply (cleared_run tr _ Hnp (cleared_init timeout led sec)).
  - intros s t0 tr rd data bridge Hnp Hlate r. subst r.
    rewrite wrapper_refused; [repeat split |].
    apply is_button_pressed_false.
    destruct (press_button_state t0 s) as (Hp & Ht & Hto & _).
    destruct (armed_or_cleared_run t0 tr (snd (press_button t0 s)) Hnp)
      as [[_ Ha] | [Hc _]]; [left; split; assumption | right | left; exact Hc].
    rewrite Ha. destruct (config_run tr (snd (press_button t0 s))) as (-> & _).
    rewrite Hto. exact Hlate.
Qed.

(** The wrapper when the gate lets the request through, or when there is
    no gate. *)
Lemma wrapper_accepted (avail : bool) (rd : readings) (data : request)
    (bridge : bridge_config) (sec : EnhancedSecurity) :
  (avail = true → fst (is_button_pressed (time_check rd) sec) = true) →
  let device_type := default "unknown#unknown" (devicetype data) in
  let username := md5_hexdigest (device_type +:+ uuid_username rd) in
  let key :=
    if default false (generateclientkey data)
    then Some (String.substring 0 32 (sha256_hexdigest (uuid_clientkey rd)))
    else None in
  fst (enhanced_auth_wrapper md5_hexdigest sha256_hexdigest avail rd data bridge sec)
  = ([success username key],
     {| whitelist :=
          Some (<[username := {| last_use_date := now_last_use rd;
                                 create_date := now_create rd;
                                 name := device_type;
                                 clientkey := key |}]>
                  (default ∅ (whitelist bridge)));
        linkbutton := linkbutton bridge |}).
Proof.
  intros E. unfold enhanced_auth_wrapper. destruct avail.
  - specialize (E eq_refl).
    destruct (is_button_pressed (time_check rd) sec) as [pressed sec1].
    simpl in E. subst pressed. reflexivity.
  - reflexivity.
Qed.

(** C1, amended.  The flag [security_enabled] plays no part in
    registration: (1) replacing it by any value leaves the response and
    the resulting [bridge_config] of every request the same; (2) under
    [BUTTON_SECURITY=false] a request made while the window was never
    armed is refused with the error of type 101 and writes nothing;
    (3) the window is left unconsulted only when the security module
    could not be imported, and then every request succeeds whatever the
    state of the window. *)
Theorem register_ignores_security_flag :
  (∀ (b : bool) (rd : readings) (data : request) (bridge : bridge_config)
     (sec : EnhancedSecurity),
     fst (enhanced_auth_wrapper md5_hexdigest sha256_hexdigest true
            rd data bridge (with_security_enabled b sec))
     = fst (enhanced_auth_wrapper md5_hexdigest sha256_hexdigest true
              rd data bridge sec)) ∧
  (∀ (timeout : option Z) (led : option bool) (rd : readings)
     (data : request) (bridge : bridge_config),
     fst (enhanced_auth_wrapper md5_hexdigest sha256_hexdigest true
            rd data bridge (init timeout led (Some false)))
     = ([error 101 EmptyString "link button not pressed"], bridge)) ∧
  (∀ (rd : readings) (data : request) (bridge : bridge_config)
     (sec : EnhancedSecurity),
     ∃ (username : string) (key : option string) (bridge' : bridge_config),
       enhanced_auth_wrapper md5_hexdigest sha256_hexdigest false
         rd data bridge sec
       = ([success username key], bridge', sec)).
Proof.
  split; [|split].
  - intros b rd data bridge sec. unfold enhanced_auth_wrapper, is_button_pressed.
    simpl. destruct (button_pressed sec); simpl; [|reflexivity].
    destruct (Qgtb _ _); reflexivity.
  - intros timeout led rd data bridge. reflexivity.
  - intros rd data bridge sec. unfold enhanced_auth_wrapper. simpl. eauto.
Qed.

(** C1 as stated fails: under [BUTTON_SECURITY=false] and the security
    module loaded, it is not so that every request on a window that was
    never armed gets a success. *)
Lemma register_checks_window_with_security_disabled :
  ¬ (∀ (md5 sha256 : string → string) (rd : readings) (data : request)
       (bridge : bridge_config),
       ∃ (username : string) (key : option string),
         fst (fst (enhanced_auth_wrapper md5 sha256 true rd data bridge
                     (init None None (Some false))))
         = [success username key]).
Proof.
  intros H.
  destruct (H constant_md5_hexdigest constant_sha256_hexdigest
              {| time_check := 0; time_status := 0;
                 uuid_username := "3f2b8c1e-7a4d-4e9b-9c55-0d6a1f2e8b77";
                 now_last_use := "2024-01-01 12:00:00.000001";
                 now_create := "2024-01-01 12:00:00.000002";
                 uuid_clientkey := "9d1c4b7a-2e6f-4a3b-8f10-5c7e9a2b4d61" |}
              {| devicetype := Some "app#device"; generateclientkey := None |}
              {| whitelist := None; linkbutton := None |})
    as (username & key & E).
  discriminate E.
Qed.

End Registration.

(** Default configuration, never armed: the request
    [{"devicetype": "app#device", "generateclientkey": true}] on a
    bridge without whitelist. *)
Lemma register_refused_when_inactive_witness :
  let rd := {| time_check := 7; time_status := 7; uuid_username := "3f2b8c1e-7a4d-4e9b-9c55-0d6a1f2e8b77";
               now_last_use := "2024-01-01 12:00:00.000001";
               now_create := "2024-01-01 12:00:00.000002";
               uuid_clientkey := "9d1c4b7a-2e6f-4a3b-8f10-5c7e9a2b4d61" |} in
  let data := {| devicetype := Some "app#device";
                 generateclientkey := Some true |} in
  let bridge := {| whitelist := None; linkbutton := None |} in
  fst (is_button_pressed (time_check rd) (init None None None)) = false ∧
  fst (fst (enhanced_auth_wrapper constant_md5_hexdigest constant_sha256_hexdigest true
              rd data bridge (init None None None)))
  = [error 101 EmptyString "link button not pressed"] ∧
  whitelist
    (snd (fst (enhanced_auth_wrapper constant_md5_hexdigest constant_sha256_hexdigest true
                 rd data bridge (init None None None)))) = None.
Proof.
  intros rd data bridge. split; [reflexivity |].
  destruct (register_refused_when_inactive constant_md5_hexdigest
              constant_sha256_hexdigest) as (H & _ & _).
  destruct (H rd data bridge (init None None None) eq_refl) as (H1 & _ & H3).
  split; [exact H1 | exact H3].
Defined.

(** [s[:m]] of a string of at least [m] characters has [m] characters. *)
Lemma length_substring_prefix (m : nat) (s : string) :
  (m ≤ String.length s)%nat → String.length (String.substring 0 m s) = m.
Proof.
  revert s. induction m as [|m IH]; intros [|c s] H; simpl in *;
    try reflexivity; try lia.
  f_equal. apply IH. lia.
Qed.

(** C3, amended.  Assume [hexdigest()] of MD5 yields 32 hexadecimal
    characters and that of SHA-256 yields 64 characters.  A request that
    [is_button_pressed] lets through (or any request when the security
    module is not loaded) gets the response [success] with a username of
    32 hexadecimal characters, hence non-empty; the whitelist of
    [bridge_config] afterwards maps that username to an entry whose name
    is the request's [devicetype] (["unknown#unknown"] when absent),
    whose "last use date" and "create date" are the two successive
    readings of [datetime.now()], equal when the readings are, and whose
    client key is the one of the response; all other keys of the
    whitelist are as before; the client key is present, with 32
    characters, when [generateclientkey] is true, and absent otherwise. *)
Theorem register_mints_credential
    (md5_hexdigest sha256_hexdigest : string → string) (avail : bool)
    (rd : readings) (data : request) (bridge : bridge_config)
    (sec : EnhancedSecurity) :
  (∀ x, String.length (md5_hexdigest x) = 32%nat ∧
        all_hex (md5_hexdigest x) = true) →
  (∀ x, String.length (sha256_hexdigest x) = 64%nat) →
  (avail = true → fst (is_button_pressed (time_check rd) sec) = true) →
  let r := enhanced_auth_wrapper md5_hexdigest sha256_hexdigest avail
             rd data bridge sec in
  ∃ (username : string) (key : option string)
    (wl : gmap string whitelist_entry) (entry : whitelist_entry),
    fst (fst r) = [success username key] ∧
    String.length username = 32%nat ∧
    all_hex username = true ∧
    username ≠ EmptyString ∧
    whitelist (snd (fst r)) = Some wl ∧
    wl !! username = Some entry ∧
    name entry = default "unknown#unknown" (devicetype data) ∧
    last_use_date entry = now_last_use rd ∧
    create_date entry = now_create rd ∧
    (now_create rd = now_last_use rd → create_date entry = last_use_date entry) ∧
    clientkey entry = key ∧
    (∀ k : string, k ≠ username → wl !! k = default ∅ (whitelist bridge) !! k) ∧
    (generateclientkey data = Some true →
     ∃ k : string, key = Some k ∧ String.length k = 32%nat) ∧
    (generateclientkey data ≠ Some true → key = None).
Proof.
  intros Hmd5 Hsha Hgate r. subst r.
  rewrite (wrapper_accepted md5_hexdigest sha256_hexdigest avail rd data bridge sec Hgate).
  simpl.
  set (username := md5_hexdigest (default "unknown#unknown" (devicetype data)
                                  +:+ uuid_username rd)).
  set (key := if default false (generateclientkey data)
              then Some (String.substring 0 32 (sha256_hexdigest (uuid_clientkey rd)))
              else None).
  destruct (Hmd5 (default "unknown#unknown" (devicetype data) +:+ uuid_username rd))
    as [Hlen Hhex]. fold username in Hlen, Hhex.
  eexists username, key, _, _.
  split; [reflexivity |]. split; [exact Hlen |]. split; [exact Hhex |].
  split; [intros E; rewrite E in Hlen; discriminate |].
  split; [reflexivity |]. split; [apply lookup_insert_eq |].
  simpl. split; [reflexivity |]. split; [reflexivity |]. split; [reflexivity |].
  split; [intros ->; reflexivity |]. split; [reflexivity |].
  split; [intros k Hk; apply lookup_insert_ne; congruence |].
  split.
  - intros Hgen. subst key. rewrite Hgen. simpl. eexists. split; [reflexivity |].
    apply length_substring_prefix. rewrite Hsha. lia.
  - intros Hgen. subst key.
    destruct (generateclientkey data) as [[|]|]; simpl; congruence.
Qed.

(** Default configuration armed at time 0; the request
    [{"devicetype": "app#device"}] arrives at time 1. *)
Lemma register_mints_credential_witness :
  ∃ (username : string),
    fst (fst (enhanced_auth_wrapper constant_md5_hexdigest
                constant_sha256_hexdigest true
                {| time_check := 1; time_status := 1; uuid_username := "3f2b8c1e-7a4d-4e9b-9c55-0d6a1f2e8b77";
                   now_last_use := "2024-01-01 12:00:00.000001";
                   now_create := "2024-01-01 12:00:00.000002";
                   uuid_clientkey := "9d1c4b7a-2e6f-4a3b-8f10-5c7e9a2b4d61" |}
                {| devicetype := Some "app#device"; generateclientkey := None |}
                {| whitelist := None; linkbutton := None |}
                (snd (press_button 0 (init None None None)))))
    = [success username None] ∧
    String.length username = 32%nat.
Proof.
  destruct (register_mints_credential constant_md5_hexdigest
              constant_sha256_hexdigest true
              {| time_check := 1; time_status := 1; uuid_username := "3f2b8c1e-7a4d-4e9b-9c55-0d6a1f2e8b77";
                 now_last_use := "2024-01-01 12:00:00.000001";
                 now_create := "2024-01-01 12:00:00.000002";
                 uuid_clientkey := "9d1c4b7a-2e6f-4a3b-8f10-5c7e9a2b4d61" |}
              {| devicetype := Some "app#device"; generateclientkey := None |}
              {| whitelist := None; linkbutton := None |}
              (snd (press_button 0 (init None None None))))
    as (username & key & wl & entry & Hresp & Hlen & _ & _ & _ & _ & _ & _
        & _ & _ & _ & _ & _ & Hnone).
  - intros x. split; reflexivity.
  - intros x. reflexivity.
  - intros _. reflexivity.
  - exists username. rewrite Hresp, Hnone by discriminate.
    split; [reflexivity | exact Hlen].
Defined.

(** C3 as stated fails: the two dates of the entry are two readings of
    the clock and need not be equal. *)
Lemma register_dates_may_differ :
  ¬ (∀ (md5 sha256 : string → string) (rd : readings) (data : request)
       (bridge : bridge_config) (sec : EnhancedSecurity)
       (username : string) (key : option string)
       (wl : gmap string whitelist_entry) (entry : whitelist_entry),
       fst (is_button_pressed (time_check rd) sec) = true →
       let r := enhanced_auth_wrapper md5 sha256 true rd data bridge sec in
       fst (fst r) = [success username key] →
       whitelist (snd (fst r)) = Some wl →
       wl !! username = Some entry →
       create_date entry = last_use_date entry).
Proof.
  intros H.
  specialize (H constant_md5_hexdigest constant_sha256_hexdigest
                {| time_check := 1; time_status := 1; uuid_username := "3f2b8c1e-7a4d-4e9b-9c55-0d6a1f2e8b77";
                   now_last_use := "2024-01-01 12:00:00.000001";
                   now_create := "2024-01-01 12:00:00.000002";
                   uuid_clientkey := "9d1c4b7a-2e6f-4a3b-8f10-5c7e9a2b4d61" |}
                {| devicetype := Some "app#device"; generateclientkey := None |}
                {| whitelist := None; linkbutton := None |}
                (snd (press_button 0 (init None None None)))
                _ _ _ _ eq_refl eq_refl eq_refl (lookup_insert_eq _ _ _)).
  discriminate H.
Qed.

(** ** The patched link button *)

Lemma patch_bridge_linkbutton_installed (bridge : bridge_config) :
  patch_bridge_linkbutton true bridge
  = {| whitelist := whitelist bridge; linkbutton := Some EnhancedLinkButton |}.
Proof.
  unfold patch_bridge_linkbutton. simpl.
  destruct (linkbutton bridge); reflexivity.
Qed.

(** Reading ["lastpress"] through the patched object: the truncated
    clock reading while the gate is open, 0 otherwise. *)
Lemma linkbutton_read_lastpress (t_check t_int : Q) (bridge : bridge_config)
    (sec : EnhancedSecurity) :
  fst (linkbutton_getitem t_check t_int "lastpress"
         (patch_bridge_linkbutton true bridge) sec)
  = Returns (if fst (is_button_pressed t_check sec) then py_int t_int else 0).
Proof.
  rewrite patch_bridge_linkbutton_installed.
  unfold linkbutton_getitem, lastpress_read. simpl.
  destruct (is_button_pressed t_check sec) as [pressed sec']. reflexivity.
Qed.

Lemma py_int_nonzero (x : Q) : (1 <= x)%Q → py_int x ≠ 0.
Proof.
  destruct x as [n d]. unfold py_int, Qle. simpl. intros H E.
  apply Z.quot_small_iff in E; lia.
Qed.

(** With the clock at or past 1, the value read is non-zero exactly
    when the gate is open. *)
Lemma linkbutton_read_nonzero_iff_active (t_check t_int : Q)
    (bridge : bridge_config) (sec : EnhancedSecurity) :
  (1 <= t_int)%Q →
  ∃ v : Z,
    fst (linkbutton_getitem t_check t_int "lastpress"
           (patch_bridge_linkbutton true bridge) sec) = Returns v ∧
    (v ≠ 0 ↔ fst (is_button_pressed t_check sec) = true).
Proof.
  intros Ht. rewrite linkbutton_read_lastpress.
  eexists. split; [reflexivity |].
  destruct (fst (is_button_pressed t_check sec)).
  - split; [reflexivity | intros _; apply py_int_nonzero, Ht].
  - split; [intros H; contradiction | discriminate].
Qed.

(** On a bridge whose ["linkbutton"] is the patched object, a write
    re-enters [__setitem__] until the recursion limit is hit, whatever
    that limit is. *)
Lemma linkbutton_setitem_overflows (depth : nat) (clock : nat → Q) (k : nat)
    (key : string) (v : Z) (bridge : bridge_config) (sec : EnhancedSecurity) :
  linkbutton bridge = Some EnhancedLinkButton →
  fst (linkbutton_setitem depth clock k key v bridge sec)
  = (Raises RecursionError, bridge).
Proof.
  intros Hlb. revert k sec.
  induction depth as [|depth IH]; intros k sec; simpl; rewrite Hlb.
  - reflexivity.
  - apply IH.
Qed.

(** C9, the defect.  After [patch_bridge_linkbutton], whatever the value
    [v], the state of the window, the clock and the recursion limit, the
    write [bridge_config["linkbutton"]["lastpress"] = v] does not return:
    [__setitem__] calls [press_button] and then performs the same write
    on [bridge_config["linkbutton"]], which is the patched object itself,
    so the call ends in [RecursionError]; [bridge_config] is left as it
    was and holds no dict in which [v] could have been stored. *)
Theorem linkbutton_write_recurses (depth : nat) (clock : nat → Q) (k : nat)
    (v : Z) (bridge : bridge_config) (sec : EnhancedSecurity) :
  let bridge' := patch_bridge_linkbutton true bridge in
  let r := linkbutton_setitem depth clock k "lastpress" v bridge' sec in
  fst (fst r) = Raises RecursionError ∧
  snd (fst r) = bridge' ∧
  linkbutton bridge' = Some EnhancedLinkButton.
Proof.
  intros bridge' r. subst r bridge'.
  rewrite patch_bridge_linkbutton_installed.
  rewrite linkbutton_setitem_overflows by reflexivity.
  repeat split.
Qed.

(** The same write at a recursion limit of 1000 frames on an empty
    [bridge_config], default configuration. *)
Example setitem_at_limit_1000 :
  fst (fst (linkbutton_setitem 1000 (λ n, inject_Z (Z.of_nat n)) 0
              "lastpress" 1700000000
              (patch_bridge_linkbutton true
                 {| whitelist := None; linkbutton := None |})
              (init None None (Some false))))
  = Raises RecursionError.
Proof.
  rewrite patch_bridge_linkbutton_installed.
  rewrite linkbutton_setitem_overflows by reflexivity. reflexivity.
Qed.

(** * Further properties of services/security.py *)

(** ** Only [press_button] arms *)

Lemma disarmed_step (s : EnhancedSecurity) (e : event) :
  is_press e = false → button_pressed s = false →
  button_pressed (step s e) = false.
Proof.
  intros He Hp.
  destruct (step_no_press s e He) as [(Hc & _) | (Hb & _)]; congruence.
Qed.

Lemma disarmed_run (tr : list event) (s : EnhancedSecurity) :
  forallb (λ e, negb (is_press e)) tr = true →
  button_pressed s = false → button_pressed (run tr s) = false.
Proof.
  revert s. induction tr as [|e tr IH]; intros s Hnp Hp; [exact Hp |].
  simpl in Hnp. apply andb_true_iff in Hnp as [He Htr].
  apply negb_true_iff in He. simpl. apply IH; [exact Htr |].
  apply disarmed_step; assumption.
Qed.

Lemma is_button_pressed_disarms (now : Q) (s : EnhancedSecurity) :
  fst (is_button_pressed now s) = false →
  button_pressed (snd (is_button_pressed now s)) = false.
Proof.
  intros E.
  apply is_button_pressed_false_state in E as [[-> Hb] | [-> _]];
    [exact Hb | reflexivity].
Qed.

(** X1.  Once [is_button_pressed] has answered [False], no sequence of
    queries, resets and timer callbacks reopens the window, whatever the
    clock reads afterwards: both queries keep refusing until the next
    [press_button]. *)
Theorem expiry_is_permanent (now : Q) (s : EnhancedSecurity)
    (tr : list event) (later : Q) :
  fst (is_button_pressed now s) = false →
  forallb (λ e, negb (is_press e)) tr = true →
  let s' := run tr (snd (is_button_pressed now s)) in
  fst (is_button_pressed later s') = false ∧
  st_button_pressed (fst (get_status later s')) = false ∧
  st_time_remaining (fst (get_status later s')) = 0.
Proof.
  intros E Hnp s'.
  assert (Hp : button_pressed s' = false).
  { apply disarmed_run; [exact Hnp |]. apply is_button_pressed_disarms, E. }
  unfold is_button_pressed, get_status. rewrite Hp. repeat split.
Qed.

(** Default configuration armed at 1700000000; the gate refuses at
    1700000031, the clock is then set back to 1700000005. *)
Lemma expiry_is_permanent_witness :
  let s := snd (press_button 1700000000 (init None None None)) in
  fst (is_button_pressed 1700000005 s) = true ∧
  fst (is_button_pressed 1700000005
         (run [GetStatus 1700000002]
            (snd (is_button_pressed 1700000031 s)))) = false.
Proof.
  intros s. split; [reflexivity |].
  apply (expiry_is_permanent 1700000031 s [GetStatus 1700000002] 1700000005);
    reflexivity.
Defined.

(** ** Timers *)

(** X2.  In every state the program reaches at most one timer can still
    fire: two live timers of the heap are the same one, the one
    [_cleanup_thread] refers to. *)
Theorem at_most_one_live_timer
    (timeout : option Z) (led sec : option bool) (tr : list event)
    (i j : nat) (tm tm' : timer) :
  let s := run tr (init timeout led sec) in
  threads s !! i = Some tm → finished tm = false →
  threads s !! j = Some tm' → finished tm' = false →
  i = j ∧ tm = tm' ∧ _cleanup_thread s = Some i.
Proof.
  intros s Hi Hf Hj Hf'.
  pose proof (timers_wf_reachable timeout led sec tr) as Hwf. fold s in Hwf.
  destruct (Hwf i tm Hi Hf) as [Hci _].
  destruct (Hwf j tm' Hj Hf') as [Hcj _].
  assert (i = j) by congruence. subst j.
  split; [reflexivity |]. split; [congruence | exact Hci].
Qed.

(** Three successive arms: only the third timer is live. *)
Lemma at_most_one_live_timer_witness :
  let s := run [Press 1; Press 2; Press 3] (init None None None) in
  length (threads s) = 3%nat ∧
  _cleanup_thread s = Some 2%nat.
Proof.
  intros s. split; [reflexivity |].
  apply (at_most_one_live_timer None None None [Press 1; Press 2; Press 3]
           2 2 {| interval := 30; started := 3; finished := false |}
           {| interval := 30; started := 3; finished := false |});
    reflexivity.
Defined.

Lemma no_timers_step (s : EnhancedSecurity) (e : event) :
  security_enabled s = false → threads s = [] → _cleanup_thread s = None →
  threads (step s e) = [] ∧ _cleanup_thread (step s e) = None.
Proof.
  intros Hsec Hth Hc. destruct e as [now | now | now | | i now]; simpl.
  - unfold press_button. rewrite Hsec. simpl. auto.
  - unfold is_button_pressed. destruct (negb _); [auto |].
    destruct (Qgtb _ _); simpl; auto.
  - unfold get_status. destruct (negb _); [auto |].
    destruct (Qeq_bool _ _); simpl; auto.
  - unfold reset, cancel_cleanup. simpl. rewrite Hc. auto.
  - unfold timer_run. rewrite Hth. simpl. auto.
Qed.

Lemma no_timers_run (tr : list event) (s : EnhancedSecurity) :
  security_enabled s = false → threads s = [] → _cleanup_thread s = None →
  threads (run tr s) = [] ∧ _cleanup_thread (run tr s) = None.
Proof.
  revert s. induction tr as [|e tr IH]; intros s Hsec Hth Hc; [auto |].
  simpl. destruct (no_timers_step s e Hsec Hth Hc) as [Hth' Hc'].
  apply IH; [|assumption..].
  destruct (config_step s e) as (_ & -> & _). exact Hsec.
Qed.

(** X3.  Under [BUTTON_SECURITY=false] no timer is ever created: whatever
    the calls, the heap of timers stays empty and [_cleanup_thread] stays
    [None], so a timer callback never changes the state and an armed
    window is disarmed only by a query or a reset. *)
Theorem no_timer_without_security
    (timeout : option Z) (led : option bool) (tr : list event) :
  let s := run tr (init timeout led (Some false)) in
  threads s = [] ∧ _cleanup_thread s = None ∧
  ∀ (i : nat) (now : Q), timer_run i now s = s.
Proof.
  intros s.
  destruct (no_timers_run tr (init timeout led (Some false)))
    as [Hth Hc]; try reflexivity.
  fold s in Hth, Hc. split; [exact Hth |]. split; [exact Hc |].
  intros i now. unfold timer_run. rewrite Hth. reflexivity.
Qed.

Lemma timer_matches_init (timeout : option Z) (led sec : option bool) :
  timer_matches_window (init timeout led sec).
Proof. intros Hp. discriminate. Qed.

Lemma timer_matches_step (s : EnhancedSecurity) (e : event) :
  timer_matches_window s → timer_matches_window (step s e).
Proof.
  intros Hm. destruct e as [now | now | now | | i now]; simpl.
  - intros _ Hsec.
    destruct (press_button_state now s) as (_ & Ht & Hto & Hs).
    rewrite Hs in Hsec.
    destruct (press_button_timers now s Hsec) as (Hc & Hnew & _).
    exists (length (threads s)). rewrite Ht, Hto. split; assumption.
  - unfold is_button_pressed. destruct (negb _); [exact Hm |].
    destruct (Qgtb _ _); simpl; [intros Hp; discriminate | exact Hm].
  - unfold get_status. destruct (negb _); [exact Hm |].
    destruct (Qeq_bool _ _); simpl; [intros Hp; discriminate | exact Hm].
  - intros Hp. discriminate.
  - unfold timer_run. destruct (threads s !! i) as [tm|]; [|exact Hm].
    destruct (negb (finished tm) && timer_due now tm); [|exact Hm].
    intros Hp. discriminate.
Qed.

Lemma timer_matches_run (tr : list event) (s : EnhancedSecurity) :
  timer_matches_window s → timer_matches_window (run tr s).
Proof.
  revert s. induction tr as [|e tr IH]; intros s Hm; [exact Hm |].
  simpl. apply IH, timer_matches_step, Hm.
Qed.

(** X4.  In every state the program reaches with the window armed under
    [BUTTON_SECURITY=true], a live timer started with the window is
    referenced; no timer callback attempted less than the timeout after
    the arming changes anything, and the callback of that timer at or
    after the deadline disarms the window, clears the arming time and
    the indicator, and leaves no live timer behind. *)
Theorem timer_expires_window_at_deadline
    (timeout : option Z) (led sec : option bool) (tr : list event) :
  let s := run tr (init timeout led sec) in
  button_pressed s = true → security_enabled s = true →
  ∃ j : nat,
    _cleanup_thread s = Some j ∧
    threads s !! j = Some {| interval := button_timeout s;
                             started := button_press_time s;
                             finished := false |} ∧
    (∀ (i : nat) (now : Q),
       (now - button_press_time s < inject_Z (button_timeout s))%Q →
       timer_run i now s = s) ∧
    (∀ now : Q,
       (inject_Z (button_timeout s) <= now - button_press_time s)%Q →
       cleared (timer_run j now s) ∧ timers_quiet (timer_run j now s)).
Proof.
  intros s Hp Hsec.
  pose proof (timers_wf_reachable timeout led sec tr) as Hwf. fold s in Hwf.
  destruct (timer_matches_run tr _ (timer_matches_init timeout led sec) Hp Hsec)
    as (j & Hc & Hj). fold s in Hc, Hj.
  exists j. split; [exact Hc |]. split; [exact Hj |]. split.
  - intros i now Hearly. apply timer_run_not_due; [exact Hwf |].
    intros j' tm Hc' Hj' Hf.
    assert (j' = j) by congruence. subst j'.
    rewrite Hj in Hj'. injection Hj' as <-.
    apply timer_due_false. simpl. lra.
  - intros now Hlate. unfold timer_run. rewrite Hj. simpl.
    assert (Hdue : timer_due now {| interval := button_timeout s;
                                    started := button_press_time s;
                                    finished := false |} = true).
    { unfold timer_due. apply Qle_bool_iff. simpl. exact Hlate. }
    rewrite Hdue. split; [repeat split |].
    intros i tm Hi. simpl in Hi.
    destruct (decide (j = i)) as [->|Hne].
    + rewrite list_lookup_alter_eq, Hj in Hi. simpl in Hi.
      injection Hi as <-. reflexivity.
    + rewrite list_lookup_alter_ne in Hi by exact Hne.
      destruct (finished tm) eqn:Hf; [reflexivity |].
      destruct (Hwf i tm Hi Hf) as [Hci _]. congruence.
Qed.

(** Default configuration armed at 1700000000: the callback of timer 0
    at 1700000030 disarms. *)
Lemma timer_expires_window_at_deadline_witness :
  let s := run [Press 1700000000] (init None None None) in
  button_pressed s = true ∧ security_enabled s = true ∧
  timer_run 0 1700000029 s = s ∧
  button_pressed (timer_run 0 1700000030 s) = false.
Proof.
  intros s. split; [reflexivity |]. split; [reflexivity |].
  destruct (timer_expires_window_at_deadline None None None
              [Press 1700000000] eq_refl eq_refl)
    as (j & Hc & _ & Hearly & Hlate).
  fold s in Hc, Hearly, Hlate.
  assert (j = 0%nat) by (injection Hc as <-; reflexivity). subst j.
  split.
  - apply Hearly. reflexivity.
  - destruct (Hlate 1700000030%Q) as [(Hb & _) _]; [discriminate | exact Hb].
Defined.

(** ** What [get_status] reports *)

Lemma py_int_floor (x : Q) : (0 <= x)%Q → py_int x = Qfloor x.
Proof.
  destruct x as [n d]. unfold py_int, Qfloor, Qle. simpl. intros H.
  apply Z.quot_div_nonneg; lia.
Qed.

(** X5.  When [get_status] reports the window armed, ['time_remaining'] is
    the whole number of seconds left, rounded down: it is never
    negative, it is 0 during the last second of the window, and it does
    not exceed the timeout unless the clock has gone backwards. *)
Theorem status_time_remaining (now : Q) (s : EnhancedSecurity) :
  st_button_pressed (fst (get_status now s)) = true →
  let left := (inject_Z (button_timeout s) - (now - button_press_time s))%Q in
  let shown := st_time_remaining (fst (get_status now s)) in
  (inject_Z shown <= left)%Q ∧
  (left < inject_Z shown + 1)%Q ∧
  0 <= shown ∧
  ((left < 1)%Q → shown = 0) ∧
  ((0 <= now - button_press_time s)%Q → shown <= button_timeout s).
Proof.
  intros Harmed left shown.
  apply get_status_armed in Harmed as [Hp Hlt].
  assert (Hpos : (0 < left)%Q) by (subst left; lra).
  assert (Hshown : shown = Qfloor left).
  { subst shown. unfold get_status. rewrite Hp. simpl.
    assert (E : Qeq_bool (py_max0 left) 0 = false)
      by (apply py_max0_not_zero; exact Hpos).
    fold left. rewrite E. simpl.
    unfold py_max0.
    assert (E' : Qgtb left 0 = true) by (apply Qgtb_true; exact Hpos).
    rewrite E'. apply py_int_floor. lra. }
  pose proof (Qfloor_le left) as Hfl.
  pose proof (Qlt_floor left) as Hfu.
  rewrite inject_Z_plus in Hfu.
  rewrite Hshown.
  assert (Hnn : 0 <= Qfloor left).
  { change 0 with (Qfloor 0). apply Qfloor_resp_le. lra. }
  repeat split; try assumption.
  - intros H1.
    assert (inject_Z (Qfloor left) < inject_Z 1)%Q by (change (inject_Z 1) with 1%Q; lra).
    rewrite <- Zlt_Qlt in H. lia.
  - intros Hfwd.
    assert (inject_Z (Qfloor left) <= inject_Z (button_timeout s))%Q
      by (subst left; lra).
    rewrite <- Zle_Qle in H. exact H.
Qed.

(** Default configuration armed at 1700000000 and read half a second
    before the deadline: armed, 0 seconds remaining. *)
Lemma status_time_remaining_witness :
  let s := snd (press_button 1700000000 (init None None None)) in
  st_button_pressed (fst (get_status (1700000029 + (1 # 2))%Q s)) = true ∧
  st_time_remaining (fst (get_status (1700000029 + (1 # 2))%Q s)) = 0.
Proof.
  intros s. split; [reflexivity |].
  apply (status_time_remaining (1700000029 + (1 # 2))%Q s); reflexivity.
Defined.

(** X6.  In every state the program reaches, the indicator in the reply of
    [get_status] is all on when the reply says armed and
    [BUTTON_SECURITY] is true, and all off otherwise. *)
Theorem status_reports_consistent_leds
    (timeout : option Z) (led sec : option bool) (tr : list event) (now : Q) :
  let s := run tr (init timeout led sec) in
  let r := fst (get_status now s) in
  st_leds r = if default true sec && st_button_pressed r
              then leds_on else leds_off.
Proof.
  intros s r.
  assert (Hinv : leds_inv s) by apply leds_inv_run, leds_inv_init.
  destruct (config_run tr (init timeout led sec)) as (_ & Hsec & _).
  fold s in Hsec. simpl in Hsec.
  unfold leds_inv in Hinv. rewrite Hsec in Hinv.
  subst r. unfold get_status.
  destruct (button_pressed s); simpl.
  - destruct (Qeq_bool _ _); simpl.
    + rewrite andb_false_r. reflexivity.
    + exact Hinv.
  - rewrite andb_false_r. reflexivity.
Qed.

(** ** The flag [led_indicator_enabled] *)

Lemma step_with_led_indicator (b : bool) (s : EnhancedSecurity) (e : event) :
  step (with_led_indicator b s) e = with_led_indicator b (step s e).
Proof.
  destruct e as [now | now | now | | i now]; simpl.
  - unfold press_button. simpl. destruct (security_enabled s); reflexivity.
  - unfold is_button_pressed. simpl. destruct (button_pressed s); simpl;
      [|reflexivity]. destruct (Qgtb _ _); reflexivity.
  - unfold get_status. simpl. destruct (button_pressed s); simpl;
      [|reflexivity]. destruct (Qeq_bool _ _); reflexivity.
  - reflexivity.
  - unfold timer_run. simpl. destruct (threads s !! i) as [tm|]; [|reflexivity].
    destruct (negb (finished tm) && timer_due now tm); reflexivity.
Qed.

Lemma run_with_led_indicator (b : bool) (tr : list event) (s : EnhancedSecurity) :
  run tr (with_led_indicator b s) = with_led_indicator b (run tr s).
Proof.
  revert s. induction tr as [|e tr IH]; intros s; [reflexivity |].
  simpl. rewrite step_with_led_indicator. apply IH.
Qed.

(** X7.  The setting [LED_INDICATOR] changes nothing but the field that holds
    it: after the same calls and timer callbacks, two instances that
    differ only in that setting are in the same state up to that field,
    and [press_button], [is_button_pressed] and [get_status] reply the
    same, indicator included. *)
Theorem led_indicator_setting_is_unused
    (timeout : option Z) (led led' sec : option bool) (tr : list event)
    (now : Q) :
  let s := run tr (init timeout led sec) in
  let s' := run tr (init timeout led' sec) in
  s = with_led_indicator (default true led) s' ∧
  fst (press_button now s) = fst (press_button now s') ∧
  fst (is_button_pressed now s) = fst (is_button_pressed now s') ∧
  fst (get_status now s) = fst (get_status now s').
Proof.
  intros s s'.
  assert (Hs : s = with_led_indicator (default true led) s').
  { subst s s'. rewrite <- run_with_led_indicator. reflexivity. }
  split; [exact Hs |]. rewrite Hs.
  split; [|split].
  - unfold press_button. simpl. destruct (security_enabled s'); reflexivity.
  - unfold is_button_pressed. simpl. destruct (button_pressed s'); simpl;
      [|reflexivity]. destruct (Qgtb _ _); reflexivity.
  - unfold get_status. simpl. destruct (button_pressed s'); simpl;
      [|reflexivity]. destruct (Qeq_bool _ _); reflexivity.
Qed.

(** * Further properties of flaskUI/restful_enhanced.py *)

(** ** The link-button endpoints *)

(** X8.  The press endpoint always answers 200 with [success] true, the
    configured timeout, and a ['time_remaining'] equal to that timeout,
    also under [BUTTON_SECURITY=false] where [press_button] returns no
    such key; when the timeout is positive, the status endpoint called at
    the same instant answers 200, armed, with the same ['time_remaining']
    and the same indicator. *)
Theorem press_endpoint_reply (now : Q) (sec : EnhancedSecurity) :
  let '(reply, code, sec') := handle_linkbutton_press now sec in
  let '(st, code', _) := handle_linkbutton_status now sec' in
  code = 200 ∧
  rp_success reply = true ∧
  rp_timeout reply = button_timeout sec ∧
  rp_time_remaining reply = button_timeout sec ∧
  rp_leds reply = led_state sec' ∧
  (0 < button_timeout sec →
   code' = 200 ∧
   st_button_pressed st = true ∧
   st_time_remaining st = rp_time_remaining reply ∧
   st_leds st = rp_leds reply).
Proof.
  unfold handle_linkbutton_press, handle_linkbutton_status.
  destruct (press_button now sec) as [result sec'] eqn:Hpress.
  destruct (get_status now sec') as [st sec''] eqn:Hst.
  assert (Hres : result = fst (press_button now sec)) by (rewrite Hpress; reflexivity).
  assert (Hsec' : sec' = snd (press_button now sec)) by (rewrite Hpress; reflexivity).
  destruct (press_button_state now sec) as (Hp & Ht & Hto & _).
  rewrite <- Hsec' in Hp, Ht, Hto.
  assert (Hfields : pr_success result = true ∧ pr_timeout result = button_timeout sec ∧
                    default (pr_timeout result) (pr_time_remaining result) = button_timeout sec ∧
                    pr_leds result = led_state sec').
  { rewrite Hres, Hsec'. unfold press_button.
    destruct (security_enabled sec); simpl; auto. }
  destruct Hfields as (H1 & H2 & H3 & H4). simpl.
  repeat split; try assumption.
  - assert (E : Qeq_bool (py_max0 (inject_Z (button_timeout sec') - (now - button_press_time sec'))%Q) 0 = false).
    { apply py_max0_not_zero. rewrite Ht, Hto. pose proof (inject_Z_pos _ H). lra. }
    unfold get_status in Hst. rewrite Hp, E in Hst. simpl in Hst.
    injection Hst as <- _. reflexivity.
  - rewrite H3.
    assert (Hleft : (0 < inject_Z (button_timeout sec') - (now - button_press_time sec'))%Q).
    { rewrite Ht, Hto. pose proof (inject_Z_pos _ H). lra. }
    assert (E : Qeq_bool (py_max0 (inject_Z (button_timeout sec') - (now - button_press_time sec'))%Q) 0 = false)
      by (apply py_max0_not_zero; exact Hleft).
    unfold get_status in Hst. rewrite Hp, E in Hst. simpl in Hst.
    injection Hst as <- _. simpl.
    unfold py_max0.
    assert (E' : Qgtb (inject_Z (button_timeout sec') - (now - button_press_time sec'))%Q 0 = true)
      by (apply Qgtb_true; exact Hleft).
    rewrite E', py_int_floor by lra.
    rewrite Ht, Hto.
    assert (Heq : (inject_Z (button_timeout sec) - (now - now) == inject_Z (button_timeout sec))%Q) by lra.
    rewrite (Qfloor_comp _ _ Heq). apply Qfloor_Z.
  - rewrite H4.
    assert (E : Qeq_bool (py_max0 (inject_Z (button_timeout sec') - (now - button_press_time sec'))%Q) 0 = false).
    { apply py_max0_not_zero. rewrite Ht, Hto. pose proof (inject_Z_pos _ H). lra. }
    unfold get_status in Hst. rewrite Hp, E in Hst. simpl in Hst.
    injection Hst as <- _. reflexivity.
Qed.

(** The reset endpoint always answers 200 with [success] true, and the
    status endpoint called after it, at any time, answers "Link button
    not pressed" with the indicator off and nothing remaining, without
    changing the state further. *)
Theorem reset_endpoint_reply (now : Q) (sec : EnhancedSecurity) :
  let '(reply, code, sec') := handle_linkbutton_reset sec in
  let '(st, code', sec'') := handle_linkbutton_status now sec' in
  code = 200 ∧ rr_success reply = true ∧ rr_message reply = "Link button reset" ∧
  code' = 200 ∧
  st = {| st_button_pressed := false;
          st_leds := leds_off;
          st_time_remaining := 0;
          st_message := "Link button not pressed" |} ∧
  sec'' = sec'.
Proof. repeat split. Qed.

(** ** Sequences of registration requests *)

Section Serving.

Variable md5_hexdigest : string → string.
Variable sha256_hexdigest : string → string.

(** X9.  With the security module loaded and the window disarmed, requests
    alone never open it: every request of any sequence is refused with
    the error of type 101, [bridge_config] is left as it was, and the
    window is still disarmed at the end. *)
Theorem requests_alone_never_register
    (reqs : list (readings * request)) (bridge : bridge_config)
    (sec : EnhancedSecurity) :
  button_pressed sec = false →
  serve md5_hexdigest sha256_hexdigest true reqs bridge sec
  = (map (λ _, [error 101 EmptyString "link button not pressed"]) reqs,
     bridge, sec).
Proof.
  intros Hp. revert bridge. induction reqs as [|[rd data] reqs IH];
    intros bridge; [reflexivity |].
  simpl. rewrite wrapper_refused
    by (apply is_button_pressed_false; left; exact Hp).
  assert (Hs : snd (is_button_pressed (time_check rd) sec) = sec).
  { unfold is_button_pressed. rewrite Hp. reflexivity. }
  rewrite Hs, IH. reflexivity.
Qed.

(** A request that passes the gate leaves the window as it is when its
    status reading is taken before the deadline, and otherwise disarms
    it; it never arms and never touches the timers. *)
Lemma wrapper_accepted_state (rd : readings) (data : request)
    (bridge : bridge_config) (sec : EnhancedSecurity) :
  fst (is_button_pressed (time_check rd) sec) = true →
  snd (enhanced_auth_wrapper md5_hexdigest sha256_hexdigest true
         rd data bridge sec)
  = snd (get_status (time_status rd) sec).
Proof.
  intros E. unfold enhanced_auth_wrapper.
  pose proof (is_button_pressed_true_state _ _ E) as Hs.
  destruct (is_button_pressed (time_check rd) sec) as [pressed sec1].
  simpl in E, Hs. subst pressed sec1. reflexivity.
Qed.

(** X10.  A successful registration does not close the window: as long as the
    window is armed and every request of a sequence takes its readings
    less than the timeout after the arming, every request gets its
    credential and the window is left exactly as it was. *)
Theorem window_admits_many (reqs : list (readings * request))
    (bridge : bridge_config) (sec : EnhancedSecurity) :
  button_pressed sec = true →
  Forall (λ rq,
            (time_check (fst rq) - button_press_time sec
             < inject_Z (button_timeout sec))%Q ∧
            (time_status (fst rq) - button_press_time sec
             < inject_Z (button_timeout sec))%Q) reqs →
  let r := serve md5_hexdigest sha256_hexdigest true reqs bridge sec in
  fst (fst r) = map (minted md5_hexdigest sha256_hexdigest) reqs ∧
  snd r = sec.
Proof.
  intros Hp Hreqs. revert bridge.
  induction Hreqs as [|[rd data] reqs [Hc Hs] Hreqs IH]; intros bridge;
    [split; reflexivity |].
  simpl in Hc, Hs. simpl.
  destruct (window_open (time_check rd) sec Hp Hc) as (Hgate & _ & _).
  destruct (window_open (time_status rd) sec Hp Hs) as (_ & _ & Hst).
  pose proof (wrapper_accepted md5_hexdigest sha256_hexdigest true rd data
                bridge sec (λ _, Hgate)) as Hacc.
  pose proof (wrapper_accepted_state rd data bridge sec Hgate) as Hstate.
  rewrite (get_status_armed_state _ _ Hst) in Hstate.
  destruct (enhanced_auth_wrapper md5_hexdigest sha256_hexdigest true
              rd data bridge sec) as [[resp bridge1] sec1].
  simpl in Hacc, Hstate. injection Hacc as -> ->. subst sec1.
  specialize (IH {| whitelist :=
          Some (<[md5_hexdigest (default "unknown#unknown" (devicetype data)
                                 +:+ uuid_username rd) :=
                  {| last_use_date := now_last_use rd;
                     create_date := now_create rd;
                     name := default "unknown#unknown" (devicetype data);
                     clientkey :=
                       if default false (generateclientkey data)
                       then Some (String.substring 0 32
                                    (sha256_hexdigest (uuid_clientkey rd)))
                       else None |}]>
                  (default ∅ (whitelist bridge)));
        linkbutton := linkbutton bridge |}).
  destruct (serve md5_hexdigest sha256_hexdigest true reqs _ sec)
    as [[resps bridge2] sec2].
  simpl in IH. destruct IH as [-> ->]. split; reflexivity.
Qed.

Lemma wrapper_cases (avail : bool) (rd : readings) (data : request)
    (bridge : bridge_config) (sec : EnhancedSecurity) :
  (∃ sec' : EnhancedSecurity,
     enhanced_auth_wrapper md5_hexdigest sha256_hexdigest avail
       rd data bridge sec
     = ([error 101 EmptyString "link button not pressed"], bridge, sec')) ∨
  (∃ (u : string) (k : option string) (e : whitelist_entry)
     (sec' : EnhancedSecurity),
     enhanced_auth_wrapper md5_hexdigest sha256_hexdigest avail
       rd data bridge sec
     = ([success u k],
        {| whitelist := Some (<[u := e]> (default ∅ (whitelist bridge)));
           linkbutton := linkbutton bridge |},
        sec')).
Proof.
  unfold enhanced_auth_wrapper.
  destruct (if avail then is_button_pressed (time_check rd) sec else (true, sec))
    as [pressed sec1].
  destruct pressed; simpl; [right | left]; eauto.
Qed.

(** X11.  Whatever the requests, the state of the window and the availability
    of the security module: after a sequence of requests the keys of the
    whitelist are the keys it had before together with the usernames
    returned in the [success] replies, no more and no less, and
    [bridge_config["linkbutton"]] is untouched.  So no key is ever
    removed, every credential handed out is in the store, and a refused
    request adds nothing. *)
Theorem whitelist_holds_what_was_minted (avail : bool)
    (reqs : list (readings * request)) (bridge : bridge_config)
    (sec : EnhancedSecurity) :
  let r := serve md5_hexdigest sha256_hexdigest avail reqs bridge sec in
  (∀ u : string,
     u ∈ dom (default ∅ (whitelist (snd (fst r)))) ↔
     u ∈ dom (default ∅ (whitelist bridge)) ∨
     ∃ k : option string, [success u k] ∈ fst (fst r)) ∧
  linkbutton (snd (fst r)) = linkbutton bridge.
Proof.
  revert bridge sec. induction reqs as [|[rd data] reqs IH];
    intros bridge sec.
  - simpl. split; [|reflexivity]. intros u. split; [auto |].
    intros [H | [k H]]; [exact H | inversion H].
  - simpl.
    destruct (wrapper_cases avail rd data bridge sec)
      as [(sec1 & ->) | (u1 & k1 & e1 & sec1 & ->)].
    + specialize (IH bridge sec1).
      destruct (serve md5_hexdigest sha256_hexdigest avail reqs bridge sec1)
        as [[resps bridge2] sec2].
      simpl in *. destruct IH as [IHdom IHlb]. split; [|exact IHlb].
      intros u. rewrite IHdom. split.
      * intros [H | [k H]]; [left; exact H |].
        right. exists k. apply elem_of_cons. right. exact H.
      * intros [H | [k H]]; [left; exact H |].
        apply elem_of_cons in H as [H | H]; [discriminate |].
        right. exists k. exact H.
    + specialize (IH {| whitelist := Some (<[u1 := e1]> (default ∅ (whitelist bridge)));
                        linkbutton := linkbutton bridge |} sec1).
      destruct (serve md5_hexdigest sha256_hexdigest avail reqs _ sec1)
        as [[resps bridge2] sec2].
      simpl in *. destruct IH as [IHdom IHlb]. split; [|exact IHlb].
      intros u. rewrite IHdom, dom_insert_L, elem_of_union, elem_of_singleton.
      split.
      * intros [[-> | H] | [k H]].
        -- right. exists k1. apply elem_of_cons. left. reflexivity.
        -- left. exact H.
        -- right. exists k. apply elem_of_cons. right. exact H.
      * intros [H | [k H]]; [left; right; exact H |].
        apply elem_of_cons in H as [H | H].
        -- injection H as -> _. left. left. reflexivity.
        -- right. exists k. exact H.
Qed.

End Serving.

(** Two requests on the default configuration, never armed. *)
Lemma requests_alone_never_register_witness :
  let rd := {| time_check := 7; time_status := 7;
               uuid_username := "3f2b8c1e-7a4d-4e9b-9c55-0d6a1f2e8b77";
               now_last_use := "2024-01-01 12:00:00.000001";
               now_create := "2024-01-01 12:00:00.000002";
               uuid_clientkey := "9d1c4b7a-2e6f-4a3b-8f10-5c7e9a2b4d61" |} in
  let data := {| devicetype := Some "app#device";
                 generateclientkey := Some true |} in
  let bridge := {| whitelist := None; linkbutton := None |} in
  button_pressed (init None None None) = false ∧
  fst (serve constant_md5_hexdigest constant_sha256_hexdigest true
         [(rd, data); (rd, data)] bridge (init None None None))
  = ([[error 101 EmptyString "link button not pressed"];
      [error 101 EmptyString "link button not pressed"]], bridge).
Proof.
  intros rd data bridge. split; [reflexivity |].
  rewrite (requests_alone_never_register constant_md5_hexdigest
             constant_sha256_hexdigest [(rd, data); (rd, data)] bridge
             (init None None None) eq_refl).
  reflexivity.
Defined.

(** Default configuration armed at 1700000000; two requests at
    1700000003 and 1700000010. *)
Lemma window_admits_many_witness :
  let rd1 := {| time_check := 1700000003; time_status := 1700000003;
                uuid_username := "3f2b8c1e-7a4d-4e9b-9c55-0d6a1f2e8b77";
                now_last_use := "2024-01-01 12:00:03.000001";
                now_create := "2024-01-01 12:00:03.000002";
                uuid_clientkey := "9d1c4b7a-2e6f-4a3b-8f10-5c7e9a2b4d61" |} in
  let rd2 := {| time_check := 1700000010; time_status := 1700000010;
                uuid_username := "0b6e2d9c-1f4a-4c7e-a1d3-7e5f9c2b8a40";
                now_last_use := "2024-01-01 12:00:10.000001";
                now_create := "2024-01-01 12:00:10.000002";
                uuid_clientkey := "5a7c9e1b-3d2f-4b6a-9e8c-1f0d2a4c6e88" |} in
  let data := {| devicetype := Some "app#device"; generateclientkey := None |} in
  let sec := snd (press_button 1700000000 (init None None None)) in
  button_pressed sec = true ∧
  snd (serve constant_md5_hexdigest constant_sha256_hexdigest true
         [(rd1, data); (rd2, data)]
         {| whitelist := None; linkbutton := None |} sec) = sec.
Proof.
  intros rd1 rd2 data sec. split; [reflexivity |].
  apply (window_admits_many constant_md5_hexdigest constant_sha256_hexdigest
           [(rd1, data); (rd2, data)]
           {| whitelist := None; linkbutton := None |} sec eq_refl).
  repeat constructor.
Defined.

(** ** The patched link button, continued *)

(** X12.  Patching discards the dict that was under ["linkbutton"]: whatever
    it held, reading any key other than ["lastpress"] through the patched
    object returns 0, without consulting the window; patching leaves the
    whitelist alone, and patching again changes nothing. *)
Theorem patched_linkbutton_hides_dict (t_check t_int : Q) (key : string)
    (bridge : bridge_config) (sec : EnhancedSecurity) :
  key ≠ "lastpress" →
  let bridge' := patch_bridge_linkbutton true bridge in
  linkbutton_getitem t_check t_int key bridge' sec = (Returns 0, sec) ∧
  whitelist bridge' = whitelist bridge ∧
  patch_bridge_linkbutton true bridge' = bridge'.
Proof.
  intros Hkey bridge'. subst bridge'.
  rewrite !patch_bridge_linkbutton_installed. simpl.
  split; [|split; reflexivity].
  unfold linkbutton_getitem, enhanced_get. simpl.
  destruct (String.eqb key "lastpress") eqn:E; [|reflexivity].
  apply String.eqb_eq in E. contradiction.
Qed.

(** A bridge whose link-button dict holds ["enabled" := 1]: before the
    patch the key reads 1, after it 0. *)
Lemma patched_linkbutton_hides_dict_witness :
  let bridge := {| whitelist := None;
                   linkbutton := Some (LinkButtonDict
                                         (<["enabled" := 1]> {["lastpress" := 0]})) |} in
  fst (linkbutton_getitem 0 0 "enabled" bridge (init None None None)) = Returns 1 ∧
  "enabled" ≠ "lastpress" ∧
  fst (linkbutton_getitem 0 0 "enabled" (patch_bridge_linkbutton true bridge)
         (init None None None)) = Returns 0.
Proof.
  intros bridge. split; [reflexivity |]. split; [discriminate |].
  destruct (patched_linkbutton_hides_dict 0 0 "enabled" bridge
              (init None None None)) as (H & _ & _); [discriminate |].
  rewrite H. reflexivity.
Defined.

Lemma setitem_lastpress_state (depth : nat) (clock : nat → Q) (k : nat)
    (v : Z) (bridge : bridge_config) (sec : EnhancedSecurity) :
  linkbutton bridge = Some EnhancedLinkButton →
  button_pressed sec = true ∨ (0 < depth)%nat →
  button_pressed
    (snd (linkbutton_setitem depth clock k "lastpress" v bridge sec)) = true ∧
  ((0 < depth)%nat →
   button_press_time
     (snd (linkbutton_setitem depth clock k "lastpress" v bridge sec))
   = clock (k + depth - 1)%nat).
Proof.
  intros Hlb. revert k sec.
  induction depth as [|depth IH]; intros k sec Hp; simpl; rewrite Hlb.
  - simpl. destruct Hp as [Hp | Hp]; [|lia]. split; [exact Hp | lia].
  - destruct (press_button_state (clock k) sec) as (Hp' & Ht & _).
    destruct (IH (S k) (snd (press_button (clock k) sec)) (or_introl Hp'))
      as [IH1 IH2].
    split; [exact IH1 |].
    intros _. destruct depth as [|depth].
    + simpl. rewrite Hlb. simpl. rewrite Ht. f_equal. lia.
    + rewrite IH2 by lia. f_equal. lia.
Qed.

Lemma setitem_other_key_state (depth : nat) (clock : nat → Q) (k : nat)
    (key : string) (v : Z) (bridge : bridge_config) (sec : EnhancedSecurity) :
  linkbutton bridge = Some EnhancedLinkButton →
  String.eqb key "lastpress" = false →
  snd (linkbutton_setitem depth clock k key v bridge sec) = sec.
Proof.
  intros Hlb Hkey. revert k.
  induction depth as [|depth IH]; intros k; simpl; rewrite Hlb.
  - reflexivity.
  - rewrite Hkey. apply IH.
Qed.

(** X13.  Through the patched object every write, whatever the key, ends in
    [RecursionError] and stores nothing.  A write of ["lastpress"] has
    nevertheless called [press_button]: if the recursion limit allows at
    least one frame, the window is armed afterwards, with the arming time
    read in the last call.  A write of any other key leaves the window
    as it was. *)
Theorem patched_write_side_effects (depth : nat) (clock : nat → Q) (k : nat)
    (key : string) (v : Z) (bridge : bridge_config) (sec : EnhancedSecurity) :
  (0 < depth)%nat →
  let bridge' := patch_bridge_linkbutton true bridge in
  let r := linkbutton_setitem depth clock k key v bridge' sec in
  fst r = (Raises RecursionError, bridge') ∧
  (key = "lastpress" →
   button_pressed (snd r) = true ∧
   button_press_time (snd r) = clock (k + depth - 1)%nat) ∧
  (key ≠ "lastpress" → snd r = sec).
Proof.
  intros Hd bridge' r. subst r bridge'.
  rewrite patch_bridge_linkbutton_installed.
  split; [apply linkbutton_setitem_overflows; reflexivity |]. split.
  - intros ->.
    destruct (setitem_lastpress_state depth clock k v
                {| whitelist := whitelist bridge;
                   linkbutton := Some EnhancedLinkButton |} sec eq_refl
                (or_intror Hd)) as [H1 H2].
    split; [exact H1 | apply H2; lia].
  - intros Hkey. apply setitem_other_key_state; [reflexivity |].
    destruct (String.eqb key "lastpress") eqn:E; [|reflexivity].
    apply String.eqb_eq in E. contradiction.
Qed.

(** An empty bridge patched, default configuration never armed, the
    write of ["lastpress"] at a recursion limit of 3 frames. *)
Lemma patched_write_side_effects_witness :
  let clock := λ n : nat, inject_Z (1700000000 + Z.of_nat n) in
  let r := linkbutton_setitem 3 clock 0 "lastpress" 1700000000
             (patch_bridge_linkbutton true
                {| whitelist := None; linkbutton := None |})
             (init None None None) in
  (0 < 3)%nat ∧
  button_pressed (init None None None) = false ∧
  button_pressed (snd r) = true.
Proof.
  intros clock r. split; [lia |]. split; [reflexivity |].
  destruct (patched_write_side_effects 3 clock 0 "lastpress" 1700000000
              {| whitelist := None; linkbutton := None |}
              (init None None None)) as (_ & H & _); [lia |].
  apply H. reflexivity.
Defined.

(** * Properties of patch_security.py *)

(** ** Strings *)

Lemma append_assoc (a b c : string) : (a +:+ b) +:+ c = a +:+ (b +:+ c).
Proof.
  induction a as [|x a IH]; [reflexivity |].
  change (String x ((a +:+ b) +:+ c) = String x (a +:+ (b +:+ c))).
  f_equal. exact IH.
Qed.

Lemma prefix_intro (p r : string) : String.prefix p (p +:+ r) = true.
Proof.
  induction p as [|x p IH]; simpl; [destruct r; reflexivity |].
  destruct (Ascii.ascii_dec x x) as [_ | Hne]; [exact IH | contradiction].
Qed.

Lemma prefix_elim (p s : string) :
  String.prefix p s = true → ∃ r, s = p +:+ r.
Proof.
  revert s. induction p as [|x p IH]; intros s H.
  - exists s. reflexivity.
  - destruct s as [|y s]; simpl in H; [discriminate |].
    destruct (Ascii.ascii_dec x y) as [-> | _]; [|discriminate].
    destruct (IH s H) as [r ->]. exists r. reflexivity.
Qed.

Lemma contains_unfold (sub s : string) :
  contains sub s =
  if String.prefix sub s then true
  else match s with
       | EmptyString => false
       | String _ s' => contains sub s'
       end.
Proof. destruct s; reflexivity. Qed.

Lemma contains_prefix (sub s : string) :
  String.prefix sub s = true → contains sub s = true.
Proof. intros H. rewrite contains_unfold, H. reflexivity. Qed.

Lemma contains_intro (sub a b : string) :
  contains sub (a +:+ (sub +:+ b)) = true.
Proof.
  induction a as [|x a IH].
  - change (contains sub (sub +:+ b) = true).
    apply contains_prefix, prefix_intro.
  - change (contains sub (String x (a +:+ (sub +:+ b))) = true).
    rewrite contains_unfold, IH.
    destruct (String.prefix sub (String x (a +:+ (sub +:+ b)))); reflexivity.
Qed.

Lemma contains_elim (sub s : string) :
  contains sub s = true → ∃ a b, s = a +:+ (sub +:+ b).
Proof.
  induction s as [|x s IH]; rewrite contains_unfold; intros H.
  - destruct (String.prefix sub EmptyString) eqn:E; [|discriminate].
    apply prefix_elim in E as [r E]. exists EmptyString, r. exact E.
  - destruct (String.prefix sub (String x s)) eqn:E.
    + apply prefix_elim in E as [r E]. exists EmptyString, r. exact E.
    + destruct (IH H) as (a & b & ->). exists (String x a), b. reflexivity.
Qed.

(** A text found in a piece is found in every text around the piece. *)
Lemma contains_mono (sub x a b : string) :
  contains sub x = true → contains sub (a +:+ (x +:+ b)) = true.
Proof.
  intros H. apply contains_elim in H as (a' & b' & ->).
  rewrite !append_assoc, <- (append_assoc a a'). apply contains_intro.
Qed.

Lemma append_nil_r (a : string) : a +:+ EmptyString = a.
Proof.
  induction a as [|x a IH]; [reflexivity |].
  change (String x (a +:+ EmptyString) = String x a). f_equal. exact IH.
Qed.

Lemma join_lines_cons (l : string) (ls : list string) :
  ls ≠ [] → join_lines (l :: ls) = l +:+ String newline (join_lines ls).
Proof. destruct ls; [contradiction | reflexivity]. Qed.

Lemma join_lines_member (x : string) (ls : list string) :
  x ∈ ls → ∃ a b, join_lines ls = a +:+ (x +:+ b).
Proof.
  induction ls as [|l ls IH]; intros Hin; [inversion Hin |].
  apply elem_of_cons in Hin as [-> | Hin].
  - destruct ls as [|l' ls].
    + exists EmptyString, EmptyString. simpl. rewrite append_nil_r. reflexivity.
    + exists EmptyString, (String newline (join_lines (l' :: ls))). reflexivity.
  - destruct (IH Hin) as (a & b & E).
    assert (ls ≠ []) by (intros ->; inversion Hin).
    rewrite join_lines_cons by assumption. rewrite E.
    exists (l +:+ String newline a), b.
    rewrite append_assoc. reflexivity.
Qed.

Lemma split_lines_nonempty (s : string) : split_lines s ≠ [].
Proof.
  induction s as [|c s IH]; simpl; [discriminate |].
  destruct (Ascii.eqb c newline); [discriminate |].
  destruct (split_lines s); discriminate.
Qed.

(** [split] and [join] are inverse to each other on a text. *)
Lemma join_split_lines (s : string) : join_lines (split_lines s) = s.
Proof.
  induction s as [|c s IH]; [reflexivity |]. simpl.
  destruct (Ascii.eqb c newline) eqn:E.
  - apply Ascii.eqb_eq in E. subst c.
    rewrite join_lines_cons by apply split_lines_nonempty.
    rewrite IH. reflexivity.
  - pose proof (split_lines_nonempty s) as Hne.
    destruct (split_lines s) as [|l ls]; [contradiction |].
    destruct ls as [|l' ls]; simpl in *; rewrite <- IH; reflexivity.
Qed.

Lemma has_newline_cons (c : Ascii.ascii) (l : string) :
  has_newline (String c l) = Ascii.eqb newline c || has_newline l.
Proof. reflexivity. Qed.

(** No line of a split text holds a line feed. *)
Lemma split_lines_no_newline (s : string) :
  Forall (λ l, has_newline l = false) (split_lines s).
Proof.
  induction s as [|c s IH]; simpl; [repeat constructor |].
  destruct (Ascii.eqb c newline) eqn:E.
  - constructor; [reflexivity | exact IH].
  - pose proof (split_lines_nonempty s) as Hne.
    destruct (split_lines s) as [|l ls]; [contradiction |].
    inversion IH as [|? ? Hl Hls]; subst. constructor; [|exact Hls].
    rewrite has_newline_cons, Ascii.eqb_sym, E, Hl. reflexivity.
Qed.

(** ** The patcher *)

Lemma insert_at_elem (i : nat) (x y : string) (ls : list string) :
  y ∈ insert_at i x ls ↔ y = x ∨ y ∈ ls.
Proof.
  assert (H : y ∈ ls ↔ y ∈ take i ls ∨ y ∈ drop i ls)
    by (rewrite <- elem_of_app, take_drop; reflexivity).
  unfold insert_at. rewrite elem_of_app, elem_of_cons, H. tauto.
Qed.

Lemma insert_at_length (i : nat) (x : string) (ls : list string) :
  length (insert_at i x ls) = S (length ls).
Proof.
  assert (H : length ls = (length (take i ls) + length (drop i ls))%nat)
    by (rewrite <- length_app, take_drop; reflexivity).
  unfold insert_at. rewrite length_app. simpl. lia.
Qed.

Lemma insert_at_lookup (i : nat) (x : string) (ls : list string) :
  (i ≤ length ls)%nat → insert_at i x ls !! i = Some x.
Proof.
  intros Hi. unfold insert_at. apply list_lookup_middle.
  rewrite length_take. lia.
Qed.

Lemma insert_at_filter (P : string → bool) (i : nat) (x : string)
    (ls : list string) :
  P x = false → List.filter P (insert_at i x ls) = List.filter P ls.
Proof.
  intros Hx. unfold insert_at.
  rewrite List.filter_app. simpl. rewrite Hx.
  rewrite <- List.filter_app, take_drop. reflexivity.
Qed.

Section PatchProperties.

Variable strip : string → string.

Lemma insert_init_elem (y : string) (ls : list string) :
  y ∈ insert_init strip ls ↔
  y ∈ ls ∨ (y = init_patch ∧ is_Some (find_app 0 ls)).
Proof.
  unfold insert_init. destruct (find_app 0 ls) as [a|].
  - rewrite insert_at_elem. split.
    + intros [-> | H]; [right; split; [reflexivity | eauto] | left; exact H].
    + intros [H | [-> _]]; [right; exact H | left; reflexivity].
  - split; [intros H; left; exact H |].
    intros [H | [_ [? H]]]; [exact H | discriminate].
Qed.

Lemma import_patch_in_patched (content : string) :
  import_patch ∈ patched_lines strip content.
Proof.
  unfold patched_lines. apply insert_init_elem. left.
  apply insert_at_elem. left. reflexivity.
Qed.

(** The patched text carries the marker that the patcher looks for. *)
Lemma patch_content_marked (content : string) :
  contains "initialize_enhanced_security" (patch_content strip content) = true.
Proof.
  unfold patch_content.
  destruct (join_lines_member _ _ (import_patch_in_patched content))
    as (a & b & ->).
  apply contains_mono. vm_compute. reflexivity.
Qed.

Lemma patch_hue_emulator_again (fs : files) :
  patch_hue_emulator strip (run_patcher strip fs)
  = (fst (patch_hue_emulator strip fs), run_patcher strip fs).
Proof.
  unfold run_patcher, patch_hue_emulator.
  destruct (emulator fs) as [content|] eqn:Hem; simpl.
  - destruct (contains "initialize_enhanced_security" content) eqn:Hm; simpl.
    + rewrite Hem, Hm. reflexivity.
    + rewrite patch_content_marked. reflexivity.
  - rewrite Hem. reflexivity.
Qed.

(** X14.  Running the patcher again is harmless: after the first run, any
    number of further runs returns the same result and writes nothing,
    so the two files stay as the first run left them.  In particular the
    backup made by the first run, the text of the emulator before the
    patch, is never replaced by patched text; and a backup that existed
    before the first run is kept as it was. *)
Theorem patcher_runs_once (n : nat) (fs : files) :
  let fs1 := run_patcher strip fs in
  Nat.iter n (run_patcher strip) fs1 = fs1 ∧
  patch_hue_emulator strip (Nat.iter n (run_patcher strip) fs1)
  = (fst (patch_hue_emulator strip fs), fs1) ∧
  (∀ original : string,
     backup fs = Some original →
     backup (Nat.iter n (run_patcher strip) fs1) = Some original) ∧
  (∀ content : string,
     backup fs = None → emulator fs = Some content →
     contains "initialize_enhanced_security" content = false →
     backup (Nat.iter n (run_patcher strip) fs1) = Some content ∧
     emulator (Nat.iter n (run_patcher strip) fs1) = Some (patch_content strip content)).
Proof.
  intros fs1.
  assert (Hiter : Nat.iter n (run_patcher strip) fs1 = fs1).
  { induction n as [|n IH]; [reflexivity |]. simpl. rewrite IH.
    unfold run_patcher at 1. subst fs1.
    rewrite patch_hue_emulator_again. reflexivity. }
  rewrite Hiter. split; [reflexivity |].
  split; [apply patch_hue_emulator_again |]. split.
  - intros original Hb. subst fs1. unfold run_patcher, patch_hue_emulator.
    destruct (emulator fs) as [content|]; simpl; [|exact Hb].
    destruct (contains _ content); simpl; [exact Hb |].
    rewrite Hb. reflexivity.
  - intros content Hb Hem Hm. subst fs1. unfold run_patcher, patch_hue_emulator.
    rewrite Hem, Hm, Hb. simpl. split; reflexivity.
Qed.

Lemma existsb_insert_at (P : string → bool) (i : nat) (x : string)
    (ls : list string) :
  existsb P (insert_at i x ls) = P x || existsb P ls.
Proof.
  assert (H : existsb P ls = existsb P (take i ls) || existsb P (drop i ls))
    by (rewrite <- existsb_app, take_drop; reflexivity).
  unfold insert_at. rewrite existsb_app. simpl. rewrite H.
  destruct (P x), (existsb P (take i ls)), (existsb P (drop i ls)); reflexivity.
Qed.

Lemma find_app_some_iff (i : nat) (ls : list string) :
  is_Some (find_app i ls) ↔ existsb creates_app ls = true.
Proof.
  revert i. induction ls as [|l ls IH]; intros i; simpl.
  - split; [intros [? H]; discriminate | discriminate].
  - destruct (creates_app l); simpl; [split; eauto | apply IH].
Qed.

Lemma not_patch_of_line (l : string) : has_newline l = false → is_patch l = false.
Proof.
  intros Hl. unfold is_patch.
  destruct (String.eqb_spec l import_patch) as [-> | _];
    [vm_compute in Hl; discriminate |].
  destruct (String.eqb_spec l init_patch) as [-> | _];
    [vm_compute in Hl; discriminate | reflexivity].
Qed.

(** X15.  The patch only adds: dropping the two inserted blocks from the
    patched list of lines gives back the lines of the original text, in
    order, and joining them gives back the original text; the patched
    list has one line more than the original for the import block, and
    one more for the initialisation block exactly when some line of the
    original holds ['app = Flask'] or ['Flask(__name__)']. *)
Theorem patch_keeps_original_lines (content : string) :
  let kept := List.filter (λ l, negb (is_patch l)) (patched_lines strip content) in
  kept = split_lines content ∧
  join_lines kept = content ∧
  length (patched_lines strip content)
  = (length (split_lines content) + 1
     + if existsb creates_app (split_lines content) then 1 else 0)%nat.
Proof.
  intros kept.
  assert (Hkept : kept = split_lines content).
  { subst kept. unfold patched_lines, insert_init.
    set (lines := split_lines content).
    set (lines1 := insert_at (import_index lines) import_patch lines).
    assert (H1 : List.filter (λ l, negb (is_patch l)) lines1 = lines).
    { subst lines1. rewrite insert_at_filter by reflexivity.
      apply forallb_filter_id. apply forallb_forall. intros l Hl.
      apply negb_true_iff, not_patch_of_line.
      pose proof (split_lines_no_newline content) as Hnl.
      rewrite List.Forall_forall in Hnl. apply Hnl, Hl. }
    destruct (find_app 0 lines1); [|exact H1].
    rewrite insert_at_filter by reflexivity. exact H1. }
  split; [exact Hkept |]. split; [rewrite Hkept; apply join_split_lines |].
  unfold patched_lines, insert_init.
  set (lines := split_lines content).
  set (lines1 := insert_at (import_index lines) import_patch lines).
  assert (Hex : existsb creates_app lines1 = existsb creates_app lines).
  { subst lines1. rewrite existsb_insert_at. reflexivity. }
  destruct (find_app 0 lines1) as [a|] eqn:Hfind.
  - assert (Hs : existsb creates_app lines1 = true)
      by (apply (find_app_some_iff 0); rewrite Hfind; eauto).
    rewrite <- Hex, Hs. subst lines1. rewrite !insert_at_length. lia.
  - assert (Hs : existsb creates_app lines1 = false).
    { destruct (existsb creates_app lines1) eqn:E; [|reflexivity].
      apply (find_app_some_iff 0) in E. rewrite Hfind in E.
      destruct E; discriminate. }
    rewrite <- Hex, Hs. subst lines1. rewrite insert_at_length. lia.
Qed.

Lemma import_index_from_spec (i acc : nat) (ls : list string) :
  (import_index_from i acc ls = acc ∧
   Forall (λ l, is_import_line l = false) ls) ∨
  (∃ (k : nat) (l : string),
     import_index_from i acc ls = S (i + k) ∧
     ls !! k = Some l ∧ is_import_line l = true ∧
     Forall (λ l, is_import_line l = false) (drop (S k) ls)).
Proof.
  revert i acc. induction ls as [|line rest IH]; intros i acc; simpl.
  - left. split; [reflexivity | constructor].
  - destruct (IH (S i) (if is_import_line line then S i else acc))
      as [[Hr Hall] | (k & l & Hr & Hk & Hl & Hall)].
    + destruct (is_import_line line) eqn:E.
      * right. exists 0%nat, line. rewrite Hr.
        split; [f_equal; lia |]. split; [reflexivity |]. split; assumption.
      * left. split; [exact Hr |]. constructor; assumption.
    + right. exists (S k), l. rewrite Hr.
      split; [f_equal; lia |]. split; [exact Hk |]. split; assumption.
Qed.

(** X16.  The import block goes right after the last line that starts with
    [from] or [import], and at the top when there is none: no line from
    the insertion point on starts so, and the line just before it, if
    any, does. *)
Theorem import_patch_placement (lines : list string) :
  let n := import_index lines in
  (n ≤ length lines)%nat ∧
  insert_at n import_patch lines !! n = Some import_patch ∧
  (∀ (k : nat) (l : string),
     (n ≤ k)%nat → lines !! k = Some l → is_import_line l = false) ∧
  (n = 0%nat ∨
   ∃ l : string, lines !! (n - 1)%nat = Some l ∧ is_import_line l = true).
Proof.
  intros n. subst n. unfold import_index.
  destruct (import_index_from_spec 0 0 lines)
    as [[-> Hall] | (k & l & -> & Hk & Hl & Hall)].
  - split; [lia |]. split; [apply insert_at_lookup; lia |].
    split; [|left; reflexivity].
    intros k l _ Hk. rewrite Forall_lookup in Hall. exact (Hall k l Hk).
  - pose proof (lookup_lt_Some _ _ _ Hk) as Hlt. simpl.
    split; [lia |]. split; [apply insert_at_lookup; lia |]. split.
    + intros k' l' Hge Hk'. rewrite Forall_lookup in Hall.
      apply (Hall (k' - S k)%nat l').
      rewrite lookup_drop. rewrite <- Hk'. f_equal. lia.
    + right. exists l. rewrite Nat.sub_0_r. split; assumption.
Qed.

Lemma find_app_spec (i a : nat) (ls : list string) :
  find_app i ls = Some a →
  ∃ (k : nat) (l : string),
    a = (i + k)%nat ∧ ls !! k = Some l ∧ creates_app l = true ∧
    Forall (λ l, creates_app l = false) (take k ls).
Proof.
  revert i. induction ls as [|line rest IH]; intros i; simpl; [discriminate |].
  destruct (creates_app line) eqn:E.
  - intros [= <-]. exists 0%nat, line.
    split; [lia |]. split; [reflexivity |]. split; [exact E | constructor].
  - intros H. destruct (IH (S i) H) as (k & l & -> & Hk & Hl & Hall).
    exists (S k), l. split; [lia |]. split; [exact Hk |].
    split; [exact Hl |]. simpl. constructor; assumption.
Qed.

Lemma skip_to_comment_spec (rest : list string) :
  let m := skip_to_comment strip rest in
  (m ≤ length rest)%nat ∧
  Forall (λ l, is_comment_line strip l = false) (take m rest) ∧
  (∀ l : string, rest !! m = Some l → is_comment_line strip l = true).
Proof.
  induction rest as [|line rest IH]; simpl.
  - split; [lia |]. split; [constructor | intros l H; discriminate].
  - destruct (is_comment_line strip line) eqn:E; simpl.
    + split; [lia |]. split; [constructor |]. intros l [= <-]. exact E.
    + destruct IH as (Hm & Hall & Hstop).
      split; [lia |]. split; [constructor; assumption | exact Hstop].
Qed.

(** X17.  The initialisation block goes after the first line [a] that holds
    ['app = Flask'] or ['Flask(__name__)'], not right behind it but in
    front of the next line whose stripped text starts with [#], and at
    the end of the file when no such line follows: between [a] and the
    block there is no comment line, and the line that follows the block,
    if any, is one. *)
Theorem init_patch_placement (ls : list string) (a : nat) :
  find_app 0 ls = Some a →
  let j := init_index strip a ls in
  (a < j ≤ length ls)%nat ∧
  insert_init strip ls = take j ls ++ init_patch :: drop j ls ∧
  insert_init strip ls !! j = Some init_patch ∧
  (∃ l : string, ls !! a = Some l ∧ creates_app l = true) ∧
  (∀ (k : nat) (l : string),
     (k < a)%nat → ls !! k = Some l → creates_app l = false) ∧
  (∀ (k : nat) (l : string),
     (a < k < j)%nat → ls !! k = Some l → is_comment_line strip l = false) ∧
  (∀ l : string, ls !! j = Some l → is_comment_line strip l = true).
Proof.
  intros Hfind j.
  destruct (find_app_spec 0 a ls Hfind) as (k & l & Ha & Hk & Hl & Hbefore).
  simpl in Ha. subst k.
  pose proof (lookup_lt_Some _ _ _ Hk) as Hlt.
  destruct (skip_to_comment_spec (drop (a + 1) ls)) as (Hm & Hbetween & Hstop).
  rewrite length_drop in Hm.
  assert (Hj : j = (a + 1 + skip_to_comment strip (drop (a + 1) ls))%nat)
    by reflexivity.
  assert (Hrange : (a < j ≤ length ls)%nat) by lia.
  split; [exact Hrange |].
  assert (Hins : insert_init strip ls = take j ls ++ init_patch :: drop j ls).
  { unfold insert_init. rewrite Hfind. reflexivity. }
  split; [exact Hins |].
  split; [rewrite Hins; apply list_lookup_middle; rewrite length_take; lia |].
  split; [exists l; split; assumption |]. split; [|split].
  - intros k l' Hka Hk'. rewrite Forall_lookup in Hbefore.
    apply (Hbefore k l'). rewrite lookup_take_lt by exact Hka. exact Hk'.
  - intros k l' [Hak Hkj] Hk'. rewrite Forall_lookup in Hbetween.
    apply (Hbetween (k - (a + 1))%nat l').
    rewrite lookup_take_lt by lia. rewrite lookup_drop.
    rewrite <- Hk'. f_equal. lia.
  - intros l' Hj'. apply Hstop. rewrite lookup_drop. exact Hj'.
Qed.

(** X18.  When no line of the emulator holds ['app = Flask'] or
    ['Flask(__name__)'], the patcher still returns [True]: it writes the
    text with the import block alone, the block that calls
    [initialize_enhanced_security] is not among the lines, and every
    later run finds the file already patched and leaves it so. *)
Theorem patch_without_app_line (fs : files) (content : string) :
  emulator fs = Some content →
  contains "initialize_enhanced_security" content = false →
  existsb creates_app (split_lines content) = false →
  let lines := split_lines content in
  fst (patch_hue_emulator strip fs) = true ∧
  patched_lines strip content
  = insert_at (import_index lines) import_patch lines ∧
  emulator (run_patcher strip fs) = Some (join_lines (patched_lines strip content)) ∧
  (init_patch ∉ patched_lines strip content) ∧
  patch_hue_emulator strip (run_patcher strip fs) = (true, run_patcher strip fs).
Proof.
  intros Hem Hm Hnone lines.
  assert (Hfirst : fst (patch_hue_emulator strip fs) = true).
  { unfold patch_hue_emulator. rewrite Hem, Hm. reflexivity. }
  assert (Hlines : patched_lines strip content
                   = insert_at (import_index lines) import_patch lines).
  { unfold patched_lines, insert_init. fold lines.
    destruct (find_app 0 (insert_at (import_index lines) import_patch lines))
      as [a|] eqn:Hfind; [|reflexivity].
    assert (Hs : is_Some (find_app 0 (insert_at (import_index lines) import_patch lines)))
      by (rewrite Hfind; eauto).
    apply find_app_some_iff in Hs. rewrite existsb_insert_at in Hs.
    subst lines. rewrite Hnone in Hs. discriminate. }
  split; [exact Hfirst |]. split; [exact Hlines |]. split; [|split].
  - unfold run_patcher, patch_hue_emulator. rewrite Hem, Hm. reflexivity.
  - rewrite Hlines. intros Hin. apply insert_at_elem in Hin as [Heq | Hin].
    + vm_compute in Heq. discriminate.
    + pose proof (split_lines_no_newline content) as Hnl.
      rewrite Forall_forall in Hnl. specialize (Hnl _ Hin).
      vm_compute in Hnl. discriminate.
  - rewrite patch_hue_emulator_again, Hfirst. reflexivity.
Qed.

End PatchProperties.

(** The source with an app line: the block lands in front of the
    comment [# routes], two lines below the app line. *)
Lemma init_patch_placement_witness :
  let lines := split_lines emulator_with_app in
  let ls := insert_at (import_index lines) import_patch lines in
  find_app 0 ls = Some 4%nat ∧
  insert_init py_strip ls !! 6%nat = Some init_patch.
Proof.
  intros lines ls. split; [reflexivity |].
  destruct (init_patch_placement py_strip ls 4 eq_refl) as (_ & _ & H & _).
  exact H.
Defined.

(** The source without an app line. *)
Lemma patch_without_app_line_witness :
  let fs := {| emulator := Some emulator_without_app; backup := None |} in
  contains "initialize_enhanced_security" emulator_without_app = false ∧
  existsb creates_app (split_lines emulator_without_app) = false ∧
  fst (patch_hue_emulator py_strip fs) = true ∧
  length (patched_lines py_strip emulator_without_app) = 3%nat.
Proof.
  intros fs. split; [reflexivity |]. split; [reflexivity |].
  destruct (patch_without_app_line py_strip fs emulator_without_app
              eq_refl eq_refl eq_refl) as (H1 & H2 & _).
  split; [exact H1 |]. rewrite H2. reflexivity.
Defined.

(** * Instances of earlier lemmas *)

(** Default configuration armed at 1700000000 and queried one second
    before the deadline: both queries say armed. *)
Lemma status_agrees_off_deadline_witness :
  let s := snd (press_button 1700000000 (init None None None)) in
  ¬ (1700000029 - button_press_time s == inject_Z (button_timeout s))%Q ∧
  st_button_pressed (fst (get_status 1700000029 s)) = true ∧
  fst (is_button_pressed 1700000029 s) = true.
Proof.
  intros s.
  assert (Hne : ¬ (1700000029 - button_press_time s
                   == inject_Z (button_timeout s))%Q) by discriminate.
  split; [exact Hne |].
  pose proof (status_agrees_off_deadline 1700000029 s Hne) as H.
  split; [rewrite H |]; reflexivity.
Defined.

(** Default configuration armed at 1700000000, the patched object read
    at 1700000010: the value is the clock reading. *)
Lemma linkbutton_read_nonzero_iff_active_witness :
  let sec := snd (press_button 1700000000 (init None None None)) in
  (1 <= 1700000010)%Q ∧
  ∃ v : Z,
    fst (linkbutton_getitem 1700000010 1700000010 "lastpress"
           (patch_bridge_linkbutton true
              {| whitelist := None; linkbutton := None |}) sec) = Returns v ∧
    v ≠ 0.
Proof.
  intros sec. split; [discriminate |].
  destruct (linkbutton_read_nonzero_iff_active 1700000010 1700000010
              {| whitelist := None; linkbutton := None |} sec)
    as (v & Hv & Hiff); [discriminate |].
  exists v. split; [exact Hv |]. apply Hiff. reflexivity.
Defined.
